(** * vx-cdc-acm: a USB CDC-ACM virtual serial port on libopencm3

    A shallow embedding of [usb-cdc-acm.c] (descriptor set, control
    callback, set-configuration callback) and of [vx-sf-arch.c] (the
    buffered byte stream [sfgetc] / [sfputc] / [sfsync] over the bulk
    endpoints), together with the properties of the design document.

    Integers are [Z]; a [uint8_t] store is written out as [_ mod 256].
    The two busy-polling loops are bounded by a fuel argument: an
    operation that is still polling when the fuel is gone ends in [Spin],
    so "never returns" reads "is [Spin] for every fuel". *)

From Stdlib Require Import ZArith List Bool Lia.
From stdpp Require Import list.
Import ListNotations.

Local Open Scope Z_scope.

(** ** Constants *)

(** [definitions.h] and the configuration enum of [usb-cdc-acm.c]. *)
Definition USB_CONTROL_ENDPOINT_SIZE : Z := 32.
Definition USB_CDCACM_DATA_IN_ENDPOINT_ADDRESS : Z := 0x81.
Definition USB_CDCACM_DATA_OUT_ENDPOINT_ADDRESS : Z := 0x1.
Definition USB_CDCACM_COMMUNICATION_IN_ENDPOINT_ADDRESS : Z := 0x82.
Definition USB_CDCACM_PACKET_SIZE : Z := 64.
Definition USB_CDCACM_POLLING_INTERVAL_MS : Z := 1.
Definition USB_CDCACM_CONTROL_INTERFACE_NUMBER : Z := 0.
Definition USB_CDCACM_DATA_INTERFACE_NUMBER : Z := 1.

(** Values the source takes from the libopencm3 headers [usbstd.h],
    [usbd.h] and [cdc.h], which are not part of the repository; they are
    the numbers USB 2.0 chapter 9 and CDC 1.2 fix for these names. *)
Module libopencm3.
Definition USB_DT_DEVICE : Z := 1.
Definition USB_DT_CONFIGURATION : Z := 2.
Definition USB_DT_INTERFACE : Z := 4.
Definition USB_DT_ENDPOINT : Z := 5.
Definition USB_DT_DEVICE_SIZE : Z := 18.
Definition USB_DT_CONFIGURATION_SIZE : Z := 9.
Definition USB_DT_INTERFACE_SIZE : Z := 9.
Definition USB_DT_ENDPOINT_SIZE : Z := 7.
Definition USB_CLASS_CDC : Z := 0x02.
Definition USB_CLASS_DATA : Z := 0x0A.
Definition USB_CLASS_VENDOR : Z := 0xFF.
Definition USB_CDC_SUBCLASS_ACM : Z := 0x02.
Definition USB_ENDPOINT_ATTR_BULK : Z := 0x02.
Definition USB_ENDPOINT_ATTR_INTERRUPT : Z := 0x03.
Definition USB_CONFIG_ATTR_DEFAULT : Z := 0x80.
Definition CS_INTERFACE : Z := 0x24.
Definition USB_CDC_TYPE_HEADER : Z := 0x00.
Definition USB_CDC_TYPE_ACM : Z := 0x02.
Definition USB_CDC_TYPE_UNION : Z := 0x06.
Definition USB_REQ_TYPE_STANDARD : Z := 0x00.
Definition USB_REQ_TYPE_INTERFACE : Z := 0x01.
Definition USB_REQ_TYPE_TYPE : Z := 0x60.
Definition USB_REQ_TYPE_RECIPIENT : Z := 0x1F.

(** [enum usbd_request_return_codes]. *)
Inductive usbd_request_return_codes : Type :=
| USBD_REQ_NOTSUPP
| USBD_REQ_HANDLED
| USBD_REQ_NEXT_CALLBACK.

(** [struct usb_setup_data]: the eight bytes of a control request. *)
Record usb_setup_data : Type := {
  bmRequestType : Z;
  bRequest : Z;
  wValue : Z;
  wIndex : Z;
  wLength : Z
}.
End libopencm3.
Import libopencm3.

(** ** The descriptor set of [usb-cdc-acm.c] *)

Record usb_endpoint_descriptor : Type := {
  ep_bLength : Z;
  ep_bDescriptorType : Z;
  bEndpointAddress : Z;
  bmAttributes : Z;
  wMaxPacketSize : Z;
  bInterval : Z
}.

Record usb_cdc_header_descriptor : Type := {
  h_bFunctionLength : Z;
  h_bDescriptorType : Z;
  h_bDescriptorSubtype : Z;
  bcdCDC : Z
}.

Record usb_cdc_acm_descriptor : Type := {
  acm_bFunctionLength : Z;
  acm_bDescriptorType : Z;
  acm_bDescriptorSubtype : Z;
  acm_bmCapabilities : Z
}.

Record usb_cdc_union_descriptor : Type := {
  u_bFunctionLength : Z;
  u_bDescriptorType : Z;
  u_bDescriptorSubtype : Z;
  bControlInterface : Z;
  bSubordinateInterface0 : Z
}.

Record usb_cdc_call_management_descriptor : Type := {
  c_bFunctionLength : Z;
  c_bDescriptorType : Z;
  c_bDescriptorSubtype : Z;
  c_bmCapabilities : Z;
  bDataInterface : Z
}.

(** The anonymous packed struct holding the four functional descriptors
    (members [h], [acm], [u] and [c] in the source). *)
Record cdcacm_functional_descriptors : Type := {
  fd_h : usb_cdc_header_descriptor;
  fd_acm : usb_cdc_acm_descriptor;
  fd_u : usb_cdc_union_descriptor;
  fd_c : usb_cdc_call_management_descriptor
}.

Record usb_interface_descriptor : Type := {
  if_bLength : Z;
  if_bDescriptorType : Z;
  bInterfaceNumber : Z;
  bAlternateSetting : Z;
  bNumEndpoints : Z;
  bInterfaceClass : Z;
  bInterfaceSubClass : Z;
  bInterfaceProtocol : Z;
  iInterface : Z;
  endpoint : list usb_endpoint_descriptor;
  extra : option cdcacm_functional_descriptors;
  extralen : Z
}.

Record usb_interface : Type := {
  num_altsetting : Z;
  altsetting : usb_interface_descriptor
}.

Record usb_config_descriptor_t : Type := {
  cfg_bLength : Z;
  cfg_bDescriptorType : Z;
  bNumInterfaces : Z;
  bConfigurationValue : Z;
  iConfiguration : Z;
  cfg_bmAttributes : Z;
  bMaxPower : Z;
  interface : list usb_interface
}.

Definition usb_cdcacm_communication_endpoint : list usb_endpoint_descriptor :=
  [ {| ep_bLength := USB_DT_ENDPOINT_SIZE;
       ep_bDescriptorType := USB_DT_ENDPOINT;
       bEndpointAddress := USB_CDCACM_COMMUNICATION_IN_ENDPOINT_ADDRESS;
       bmAttributes := USB_ENDPOINT_ATTR_INTERRUPT;
       wMaxPacketSize := USB_CDCACM_PACKET_SIZE;
       bInterval := USB_CDCACM_POLLING_INTERVAL_MS |} ].

Definition usb_cdcacm_data_endpoints : list usb_endpoint_descriptor :=
  [ {| ep_bLength := USB_DT_ENDPOINT_SIZE;
       ep_bDescriptorType := USB_DT_ENDPOINT;
       bEndpointAddress := USB_CDCACM_DATA_IN_ENDPOINT_ADDRESS;
       bmAttributes := USB_ENDPOINT_ATTR_BULK;
       wMaxPacketSize := USB_CDCACM_PACKET_SIZE;
       bInterval := USB_CDCACM_POLLING_INTERVAL_MS |};
    {| ep_bLength := USB_DT_ENDPOINT_SIZE;
       ep_bDescriptorType := USB_DT_ENDPOINT;
       bEndpointAddress := USB_CDCACM_DATA_OUT_ENDPOINT_ADDRESS;
       bmAttributes := USB_ENDPOINT_ATTR_BULK;
       wMaxPacketSize := USB_CDCACM_PACKET_SIZE;
       bInterval := USB_CDCACM_POLLING_INTERVAL_MS |} ].

(** [sizeof] of the four packed libopencm3 structs: 5, 4, 5 and 5 bytes.
    The call-management initialiser names no [bDescriptorSubtype], so C
    leaves that field zero. *)
Definition usb_cdcacm_functional_descriptors : cdcacm_functional_descriptors :=
  {| fd_h := {| h_bFunctionLength := 5;
             h_bDescriptorType := CS_INTERFACE;
             h_bDescriptorSubtype := USB_CDC_TYPE_HEADER;
             bcdCDC := 0x110 |};
     fd_acm := {| acm_bFunctionLength := 4;
               acm_bDescriptorType := CS_INTERFACE;
               acm_bDescriptorSubtype := USB_CDC_TYPE_ACM;
               acm_bmCapabilities := 0 |};
     fd_u := {| u_bFunctionLength := 5;
             u_bDescriptorType := CS_INTERFACE;
             u_bDescriptorSubtype := USB_CDC_TYPE_UNION;
             bControlInterface := USB_CDCACM_CONTROL_INTERFACE_NUMBER;
             bSubordinateInterface0 := USB_CDCACM_DATA_INTERFACE_NUMBER |};
     fd_c := {| c_bFunctionLength := 5;
             c_bDescriptorType := CS_INTERFACE;
             c_bDescriptorSubtype := 0;
             c_bmCapabilities := 0;
             bDataInterface := USB_CDCACM_DATA_INTERFACE_NUMBER |} |}.

Definition cdcacm_communications_interface : usb_interface_descriptor :=
  {| if_bLength := USB_DT_INTERFACE_SIZE;
     if_bDescriptorType := USB_DT_INTERFACE;
     bInterfaceNumber := USB_CDCACM_CONTROL_INTERFACE_NUMBER;
     bAlternateSetting := 0;
     bNumEndpoints := 1;
     bInterfaceClass := USB_CLASS_CDC;
     bInterfaceSubClass := USB_CDC_SUBCLASS_ACM;
     bInterfaceProtocol := 0;
     iInterface := 0;
     endpoint := usb_cdcacm_communication_endpoint;
     extra := Some usb_cdcacm_functional_descriptors;
     extralen := 5 + 4 + 5 + 5 |}.

Definition cdcacm_data_interface : usb_interface_descriptor :=
  {| if_bLength := USB_DT_INTERFACE_SIZE;
     if_bDescriptorType := USB_DT_INTERFACE;
     bInterfaceNumber := USB_CDCACM_DATA_INTERFACE_NUMBER;
     bAlternateSetting := 0;
     bNumEndpoints := 2;
     bInterfaceClass := USB_CLASS_DATA;
     bInterfaceSubClass := 0;
     bInterfaceProtocol := 0;
     iInterface := 0;
     endpoint := usb_cdcacm_data_endpoints;
     extra := None;
     extralen := 0 |}.

Definition usb_interfaces : list usb_interface :=
  [ {| num_altsetting := 1; altsetting := cdcacm_communications_interface |};
    {| num_altsetting := 1; altsetting := cdcacm_data_interface |} ].

Definition usb_config_descriptor : usb_config_descriptor_t :=
  {| cfg_bLength := USB_DT_CONFIGURATION_SIZE;
     cfg_bDescriptorType := USB_DT_CONFIGURATION;
     bNumInterfaces := 2;
     bConfigurationValue := 1;
     iConfiguration := 0;
     cfg_bmAttributes := USB_CONFIG_ATTR_DEFAULT;
     bMaxPower := 50;
     interface := usb_interfaces |}.

(** ** The program state and the USB host

    The statics of both translation units, the packets the host has queued
    for the bulk-OUT endpoint, and the trace of every libopencm3 driver call
    and of the volatile store to [is_usb_device_configured]. *)

Inductive event : Type :=
| ev_poll
| ev_ep_read (addr : Z) (data : list Z)
| ev_ep_write (addr : Z) (data : list Z) (accepted : bool)
| ev_ep_setup (addr type max_size : Z)
| ev_register_control_callback (type mask : Z)
| ev_store_configured (v : bool).

Record world : Type := mkWorld {
  is_usb_device_configured : bool;   (* usb-cdc-acm.c *)
  inbuf : list Z;                    (* vx-sf-arch.c, static in sfgetc *)
  idx : Z;
  inbuf_len : Z;
  outbuf : list Z;                   (* vx-sf-arch.c *)
  outbuf_idx : Z;
  host_out : list (list Z);          (* packets the host sends to bulk-OUT, oldest first *)
  polls : nat;                       (* driver calls made so far, by kind *)
  reads : nat;
  writes : nat;
  trace : list event                 (* oldest first *)
}.

(** What the host does is not decided by the program.  [out_arrived n]: at
    the [n]-th receive attempt the next queued bulk-OUT packet sits in the
    endpoint buffer.  [in_free n]: at the [n]-th send attempt the bulk-IN
    endpoint is free to take a packet.  [set_configuration n]: the [n]-th
    poll serves a SET_CONFIGURATION request with this [wValue]. *)
Record host : Type := {
  out_arrived : nat -> bool;
  in_free : nat -> bool;
  set_configuration : nat -> option Z
}.

Definition sizeof_inbuf : Z := USB_CDCACM_PACKET_SIZE.
Definition sizeof_outbuf : Z := USB_CDCACM_PACKET_SIZE - 1.

(** Power-on state: C zero-initialises the statics. *)
Definition initial_world (queued : list (list Z)) : world :=
  {| is_usb_device_configured := false;
     inbuf := repeat 0 (Z.to_nat sizeof_inbuf);
     idx := 0;
     inbuf_len := 0;
     outbuf := repeat 0 (Z.to_nat sizeof_outbuf);
     outbuf_idx := 0;
     host_out := queued;
     polls := O; reads := O; writes := O;
     trace := [] |}.

(** An operation returns ([Done]), is still busy-polling when the fuel is
    gone ([Spin]), or indexes a buffer out of bounds ([Undef], undefined
    behaviour in C). *)
Inductive outcome (A : Type) : Type :=
| Done (a : A) (w : world)
| Spin (w : world)
| Undef.
Arguments Done {A} a w.
Arguments Spin {A} w.
Arguments Undef {A}.

Definition M (A : Type) : Type := world -> outcome A.

Definition ret {A} (a : A) : M A := fun w => Done a w.

Definition bind {A B} (m : M A) (k : A -> M B) : M B := fun w =>
  match m w with
  | Done a w' => k a w'
  | Spin w' => Spin w'
  | Undef => Undef
  end.

Notation "'let*' x ':=' m 'in' k" := (bind m (fun x => k))
  (at level 10, x binder, k at level 200).
Notation "m >> k" := (bind m (fun _ => k))
  (at level 80, right associativity).

Definition get {A} (f : world -> A) : M A := fun w => Done (f w) w.
Definition modify (f : world -> world) : M unit := fun w => Done tt (f w).
Definition spin {A} : M A := fun w => Spin w.
Definition undef {A} : M A := fun _ => Undef.

Definition log (e : event) (w : world) : world :=
  mkWorld (is_usb_device_configured w) (inbuf w) (idx w) (inbuf_len w)
          (outbuf w) (outbuf_idx w) (host_out w)
          (polls w) (reads w) (writes w) (trace w ++ [e]).
Definition set_configured (v : bool) (w : world) : world :=
  mkWorld v (inbuf w) (idx w) (inbuf_len w) (outbuf w) (outbuf_idx w)
          (host_out w) (polls w) (reads w) (writes w) (trace w).
Definition set_inbuf (b : list Z) (w : world) : world :=
  mkWorld (is_usb_device_configured w) b (idx w) (inbuf_len w)
          (outbuf w) (outbuf_idx w) (host_out w)
          (polls w) (reads w) (writes w) (trace w).
Definition set_idx (i : Z) (w : world) : world :=
  mkWorld (is_usb_device_configured w) (inbuf w) i (inbuf_len w)
          (outbuf w) (outbuf_idx w) (host_out w)
          (polls w) (reads w) (writes w) (trace w).
Definition set_inbuf_len (n : Z) (w : world) : world :=
  mkWorld (is_usb_device_configured w) (inbuf w) (idx w) n
          (outbuf w) (outbuf_idx w) (host_out w)
          (polls w) (reads w) (writes w) (trace w).
Definition set_outbuf (b : list Z) (w : world) : world :=
  mkWorld (is_usb_device_configured w) (inbuf w) (idx w) (inbuf_len w)
          b (outbuf_idx w) (host_out w)
          (polls w) (reads w) (writes w) (trace w).
Definition set_outbuf_idx (i : Z) (w : world) : world :=
  mkWorld (is_usb_device_configured w) (inbuf w) (idx w) (inbuf_len w)
          (outbuf w) i (host_out w)
          (polls w) (reads w) (writes w) (trace w).
Definition set_host_out (q : list (list Z)) (w : world) : world :=
  mkWorld (is_usb_device_configured w) (inbuf w) (idx w) (inbuf_len w)
          (outbuf w) (outbuf_idx w) q
          (polls w) (reads w) (writes w) (trace w).
Definition tick_poll (w : world) : world :=
  mkWorld (is_usb_device_configured w) (inbuf w) (idx w) (inbuf_len w)
          (outbuf w) (outbuf_idx w) (host_out w)
          (S (polls w)) (reads w) (writes w) (trace w).
Definition tick_read (w : world) : world :=
  mkWorld (is_usb_device_configured w) (inbuf w) (idx w) (inbuf_len w)
          (outbuf w) (outbuf_idx w) (host_out w)
          (polls w) (S (reads w)) (writes w) (trace w).
Definition tick_write (w : world) : world :=
  mkWorld (is_usb_device_configured w) (inbuf w) (idx w) (inbuf_len w)
          (outbuf w) (outbuf_idx w) (host_out w)
          (polls w) (reads w) (S (writes w)) (trace w).

(** A C array access [buf[i]]; out of bounds is undefined behaviour. *)
Definition load (buf : list Z) (i : Z) : M Z := fun w =>
  if (0 <=? i) && (i <? Z.of_nat (length buf))
  then match buf !! Z.to_nat i with
       | Some b => Done b w
       | None => Undef
       end
  else Undef.

(** Storing an [int] into a [uint8_t] keeps the value modulo 256. *)
Definition to_uint8 (v : Z) : Z := v mod 256.

(** ** [usb-cdc-acm.c]: the two callbacks *)

(** The request filter of the source sits inside [#if 0]; what is compiled
    is the final [return].  [buf] and [len] are the in/out arguments of the
    libopencm3 callback type, returned as the handler leaves them. *)
Definition usbd_cdcacm_control_callback
    (req : usb_setup_data) (buf : list Z) (len : Z)
  : usbd_request_return_codes * list Z * Z :=
  (USBD_REQ_HANDLED, buf, len).

(** Modelled from the spec: [setup_endpoint(address, transfer_type,
    packet_size)] of the driver (libopencm3's [usbd_ep_setup], not in the
    repository), seen from the program as a trace event. *)
Definition usbd_ep_setup (addr type max_size : Z) : M unit :=
  modify (log (ev_ep_setup addr type max_size)).

(** Modelled from the spec: [register_control_handler(request_mask,
    handler)] of the driver; the handler is always
    [usbd_cdcacm_control_callback]. *)
Definition usbd_register_control_callback (type mask : Z) : M unit :=
  modify (log (ev_register_control_callback type mask)).

(** The store to the [volatile] flag, an observable event of its own. *)
Definition store_is_usb_device_configured (v : bool) : M unit :=
  modify (fun w => log (ev_store_configured v) (set_configured v w)).

Definition usbd_cdcacm_set_config_callback (wValue : Z) : M unit :=
  usbd_ep_setup USB_CDCACM_COMMUNICATION_IN_ENDPOINT_ADDRESS
                USB_ENDPOINT_ATTR_INTERRUPT USB_CDCACM_PACKET_SIZE >>
  usbd_ep_setup USB_CDCACM_DATA_IN_ENDPOINT_ADDRESS
                USB_ENDPOINT_ATTR_BULK USB_CDCACM_PACKET_SIZE >>
  usbd_ep_setup USB_CDCACM_DATA_OUT_ENDPOINT_ADDRESS
                USB_ENDPOINT_ATTR_BULK USB_CDCACM_PACKET_SIZE >>
  usbd_register_control_callback
    (Z.lor USB_REQ_TYPE_STANDARD USB_REQ_TYPE_INTERFACE)
    (Z.lor USB_REQ_TYPE_TYPE USB_REQ_TYPE_RECIPIENT) >>
  store_is_usb_device_configured true.

(** The trace of one run of the callback. *)
Definition activation_events : list event :=
  [ ev_ep_setup USB_CDCACM_COMMUNICATION_IN_ENDPOINT_ADDRESS
                USB_ENDPOINT_ATTR_INTERRUPT USB_CDCACM_PACKET_SIZE;
    ev_ep_setup USB_CDCACM_DATA_IN_ENDPOINT_ADDRESS
                USB_ENDPOINT_ATTR_BULK USB_CDCACM_PACKET_SIZE;
    ev_ep_setup USB_CDCACM_DATA_OUT_ENDPOINT_ADDRESS
                USB_ENDPOINT_ATTR_BULK USB_CDCACM_PACKET_SIZE;
    ev_register_control_callback
      (Z.lor USB_REQ_TYPE_STANDARD USB_REQ_TYPE_INTERFACE)
      (Z.lor USB_REQ_TYPE_TYPE USB_REQ_TYPE_RECIPIENT);
    ev_store_configured true ].

(** The endpoints the descriptor set declares: address, transfer type and
    packet size of each. *)
Definition declared_endpoints : list (Z * Z * Z) :=
  map (fun d => (bEndpointAddress d, bmAttributes d, wMaxPacketSize d))
      (concat (map (fun i => endpoint (altsetting i))
                   (interface usb_config_descriptor))).

(** ** The libopencm3 driver, as the program sees it *)

Section Driver.
Variable hst : host.

(** Modelled from the spec: [poll()] services pending device activity and
    returns at once; a pending SET_CONFIGURATION runs the callback that
    [main] registered with [usbd_register_set_config_callback]. *)
Definition usbd_poll : M unit := fun w =>
  let w' := log ev_poll (tick_poll w) in
  match set_configuration hst (polls w) with
  | Some wValue => usbd_cdcacm_set_config_callback wValue w'
  | None => Done tt w'
  end.

(** Modelled from the spec: [read_packet(endpoint)] is non-blocking and
    yields the bytes currently available, none if there are none.  The
    bytes copied out are at most [len] (a [uint16_t]); the C function
    returns their count. *)
Definition usbd_ep_read_packet (addr len : Z) : M (list Z) := fun w =>
  match (if (addr =? USB_CDCACM_DATA_OUT_ENDPOINT_ADDRESS)
            && out_arrived hst (reads w)
         then host_out w else []) with
  | p :: rest =>
      let data := take (Z.to_nat (len mod 65536)) p in
      Done data (log (ev_ep_read addr data) (tick_read (set_host_out rest w)))
  | [] => Done [] (log (ev_ep_read addr []) (tick_read w))
  end.

(** Modelled from the spec: [write_packet(endpoint, bytes)] is
    non-blocking, and zero means rejected, "ambiguous with a successful
    zero-length send"; in the words of the comment above [outbuf] in
    [vx-sf-arch.c] it "returns zero on failure, or the length of the packet
    sent on success".  [len] is a [uint16_t]. *)
Definition usbd_ep_write_packet (addr : Z) (buf : list Z) (len : Z) : M Z :=
  fun w =>
    let n := len mod 65536 in
    let data := take (Z.to_nat n) buf in
    if in_free hst (writes w)
    then Done n (log (ev_ep_write addr data true) (tick_write w))
    else Done 0 (log (ev_ep_write addr data false) (tick_write w)).

(** ** [vx-sf-arch.c] *)

(** The [while (idx == inbuf_len)] loop of [sfgetc]. *)
Fixpoint sfgetc_loop (fuel : nat) : M unit := fun w =>
  if idx w =? inbuf_len w then
    match fuel with
    | O => Spin w
    | S fuel' =>
        (usbd_poll >>
         modify (set_idx 0) >>
         let* data := usbd_ep_read_packet
                        USB_CDCACM_DATA_OUT_ENDPOINT_ADDRESS sizeof_inbuf in
         modify (fun w => set_inbuf (data ++ drop (length data) (inbuf w)) w) >>
         modify (set_inbuf_len (Z.of_nat (length data))) >>
         sfgetc_loop fuel') w
    end
  else Done tt w.

Definition sfgetc (fuel : nat) : M Z :=
  sfgetc_loop fuel >>
  let* i := get idx in
  let* b := (fun w => load (inbuf w) i w) in
  modify (set_idx (i + 1)) >>
  ret b.

(** The [while (!usbd_ep_write_packet(...)) usbd_poll(usbd_dev);] loop. *)
Fixpoint sfsync_loop (fuel : nat) : M unit :=
  let* n := (fun w => usbd_ep_write_packet
                        USB_CDCACM_DATA_IN_ENDPOINT_ADDRESS
                        (outbuf w) (outbuf_idx w) w) in
  if n =? 0 then
    match fuel with
    | O => spin
    | S fuel' => usbd_poll >> sfsync_loop fuel'
    end
  else ret tt.

Definition sfsync (fuel : nat) : M unit :=
  sfsync_loop fuel >> modify (set_outbuf_idx 0).

(** [outbuf[i] = c]. *)
Definition store_outbuf (i v : Z) : M unit := fun w =>
  if (0 <=? i) && (i <? Z.of_nat (length (outbuf w)))
  then Done tt (set_outbuf (<[Z.to_nat i := to_uint8 v]> (outbuf w)) w)
  else Undef.

Definition sfputc (fuel : nat) (c : Z) : M unit :=
  let* i := get outbuf_idx in
  store_outbuf i c >>
  modify (set_outbuf_idx (i + 1)) >>
  let* j := get outbuf_idx in
  if j =? sizeof_outbuf then sfsync fuel else ret tt.

(** *** Callers: sequences of stream operations *)

Fixpoint sfputc_all (fuel : nat) (cs : list Z) : M unit :=
  match cs with
  | [] => ret tt
  | c :: cs' => sfputc fuel c >> sfputc_all fuel cs'
  end.

Fixpoint sfgetc_n (fuel : nat) (n : nat) : M (list Z) :=
  match n with
  | O => ret []
  | S n' =>
      let* b := sfgetc fuel in
      let* bs := sfgetc_n fuel n' in
      ret (b :: bs)
  end.

Inductive stream_op : Type :=
| op_getc
| op_putc (c : Z)
| op_sync.

Definition do_op (fuel : nat) (o : stream_op) : M unit :=
  match o with
  | op_getc => sfgetc fuel >> ret tt
  | op_putc c => sfputc fuel c
  | op_sync => sfsync fuel
  end.

Fixpoint run (fuel : nat) (ops : list stream_op) : M unit :=
  match ops with
  | [] => ret tt
  | o :: ops' => do_op fuel o >> run fuel ops'
  end.

(** *** One step of each loop, in closed form *)

Definition poll_events (n : nat) : list event :=
  ev_poll :: match set_configuration hst n with
             | Some _ => activation_events
             | None => []
             end.

(** The world after [usbd_poll]. *)
Definition polled (w : world) : world :=
  mkWorld (match set_configuration hst (polls w) with
           | Some _ => true
           | None => is_usb_device_configured w
           end)
          (inbuf w) (idx w) (inbuf_len w) (outbuf w) (outbuf_idx w)
          (host_out w) (S (polls w)) (reads w) (writes w)
          (trace w ++ poll_events (polls w)).

(** What the next receive attempt on bulk-OUT copies out, and the queue
    it leaves. *)
Definition rx_next (w : world) : list Z :=
  if out_arrived hst (reads w)
  then match host_out w with
       | p :: _ => take (Z.to_nat sizeof_inbuf) p
       | [] => []
       end
  else [].

Definition rx_rest (w : world) : list (list Z) :=
  if out_arrived hst (reads w) then tail (host_out w) else host_out w.

(** The world after one turn of the [sfgetc] loop body. *)
Definition received (w : world) : world :=
  mkWorld (is_usb_device_configured (polled w))
          (rx_next w ++ drop (length (rx_next w)) (inbuf w))
          0 (Z.of_nat (length (rx_next w)))
          (outbuf w) (outbuf_idx w) (rx_rest w)
          (S (polls w)) (S (reads w)) (writes w)
          (trace w ++ poll_events (polls w)
                   ++ [ev_ep_read USB_CDCACM_DATA_OUT_ENDPOINT_ADDRESS (rx_next w)]).

(** The packet [sfsync] hands to the driver, and the world after one
    send attempt. *)
Definition tx_packet (w : world) : list Z :=
  take (Z.to_nat (outbuf_idx w mod 65536)) (outbuf w).

Definition attempted (w : world) : world :=
  log (ev_ep_write USB_CDCACM_DATA_IN_ENDPOINT_ADDRESS (tx_packet w)
                   (in_free hst (writes w)))
      (tick_write w).

End Driver.

(** ** Observations on traces and worlds *)

(** Packets handed to [usbd_ep_write_packet], and those the driver took. *)
Definition tx_attempt (e : event) : option (list Z) :=
  match e with ev_ep_write _ d _ => Some d | _ => None end.
Definition tx_accept (e : event) : option (list Z) :=
  match e with ev_ep_write _ d true => Some d | _ => None end.
Definition tx_attempts (tr : list event) : list (list Z) := omap tx_attempt tr.
Definition tx_accepted (tr : list event) : list (list Z) := omap tx_accept tr.

(** Endpoint reads and writes in a trace. *)
Definition is_ep_io (e : event) : bool :=
  match e with
  | ev_ep_read _ _ | ev_ep_write _ _ _ => true
  | _ => false
  end.
Definition ep_io (tr : list event) : list event := List.filter is_ep_io tr.

(** The events an operation added to the trace of [w0]. *)
Definition events_of {A} (w0 : world) (o : outcome A) : list event :=
  match o with
  | Done _ w | Spin w => drop (length (trace w0)) (trace w)
  | Undef => []
  end.

(** Bytes the host has sent that [sfgetc] has not returned yet. *)
Definition rx_pending (w : world) : list Z :=
  drop (Z.to_nat (idx w)) (take (Z.to_nat (inbuf_len w)) (inbuf w))
  ++ concat (host_out w).

(** The invariant of the stream buffers (design document, section 3). *)
Definition stream_buffer_invariant (w : world) : Prop :=
  0 <= idx w /\ idx w <= inbuf_len w /\ inbuf_len w <= sizeof_inbuf /\
  0 <= outbuf_idx w /\ outbuf_idx w <= sizeof_outbuf.

(** What holds between two calls: the arrays have their declared sizes and
    the output buffer is never left full. *)
Definition between_calls (w : world) : Prop :=
  length (inbuf w) = Z.to_nat sizeof_inbuf /\
  length (outbuf w) = Z.to_nat sizeof_outbuf /\
  0 <= idx w /\ idx w <= inbuf_len w /\ inbuf_len w <= sizeof_inbuf /\
  0 <= outbuf_idx w /\ outbuf_idx w < sizeof_outbuf.

(** A bulk-OUT packet is at most one endpoint buffer long. *)
Definition packets_fit (q : list (list Z)) : Prop :=
  Forall (fun p => (length p <= Z.to_nat USB_CDCACM_PACKET_SIZE)%nat) q.

(** The host keeps coming back: after every attempt there is a later one
    that succeeds. *)
Definition infinitely_often (f : nat -> bool) : Prop :=
  forall n, exists m, (n <= m)%nat /\ f m = true.

(** A host that is always ready and never reconfigures. *)
Definition ready_host : host :=
  {| out_arrived := fun _ => true;
     in_free := fun _ => true;
     set_configuration := fun _ => None |}.

(** How an operation ends: [P (Some a)] when it returns [a], [P None] when
    it is still polling; it never runs into undefined behaviour. *)
Definition ends {A} (o : outcome A) (P : option A -> world -> Prop) : Prop :=
  match o with
  | Done a w => P (Some a) w
  | Spin w => P None w
  | Undef => False
  end.

(** The receive side, respectively the send side, is as it was. *)
Definition rx_side_kept (w w' : world) : Prop :=
  inbuf w' = inbuf w /\ idx w' = idx w /\ inbuf_len w' = inbuf_len w /\
  host_out w' = host_out w /\ reads w' = reads w.

Definition tx_side_kept (w w' : world) : Prop :=
  outbuf w' = outbuf w /\ outbuf_idx w' = outbuf_idx w /\
  writes w' = writes w /\
  tx_attempts (trace w') = tx_attempts (trace w) /\
  tx_accepted (trace w') = tx_accepted (trace w).

(** The trace of [w'] continues the trace of [w]. *)
Definition extends (w w' : world) : Prop :=
  exists evs, trace w' = trace w ++ evs.

(** Bytes [sfputc] has been given so far: those in packets the driver has
    accepted, then those still waiting in [outbuf]. *)
Definition tx_stream (w : world) : list Z :=
  concat (tx_accepted (trace w)) ++ take (Z.to_nat (outbuf_idx w)) (outbuf w).

(** The world after [outbuf[outbuf_idx ++] = c]. *)
Definition appended (c : Z) (w : world) : world :=
  set_outbuf_idx (outbuf_idx w + 1)
    (set_outbuf (<[Z.to_nat (outbuf_idx w) := to_uint8 c]> (outbuf w)) w).

(** A standard GET_STATUS request to interface 0, which the handler has no
    code for. *)
Definition get_status_request : usb_setup_data :=
  {| bmRequestType := 0x81; bRequest := 0; wValue := 0; wIndex := 0;
     wLength := 2 |}.

(** ** [usb-cdc-acm.c]: the device descriptor and the loop of [main] *)

Record usb_device_descriptor_t : Type := {
  dev_bLength : Z;
  dev_bDescriptorType : Z;
  bcdUSB : Z;
  bDeviceClass : Z;
  bDeviceSubClass : Z;
  bDeviceProtocol : Z;
  bMaxPacketSize0 : Z;
  idVendor : Z;
  idProduct : Z;
  bcdDevice : Z;
  iManufacturer : Z;
  iProduct : Z;
  iSerialNumber : Z;
  bNumConfigurations : Z
}.

Definition usb_device_descriptor : usb_device_descriptor_t :=
  {| dev_bLength := USB_DT_DEVICE_SIZE;
     dev_bDescriptorType := USB_DT_DEVICE;
     bcdUSB := 0x200;
     bDeviceClass := USB_CLASS_VENDOR;
     bDeviceSubClass := 0;
     bDeviceProtocol := 0;
     bMaxPacketSize0 := USB_CONTROL_ENDPOINT_SIZE;
     idVendor := 0x1ad4;
     idProduct := 0xb000;
     bcdDevice := 0x0100;
     iManufacturer := 0;
     iProduct := 0;
     iSerialNumber := 0;
     bNumConfigurations := 1 |}.

(** [static const char * usb_strings[] = { }]: no string descriptors. *)
Definition usb_strings : list (list Z) := [].

(** [static uint8_t usb_control_buffer[128]]. *)
Definition sizeof_usb_control_buffer : Z := 128.

(** [while (!usbd_ep_write_packet(usbd_dev, addr, buf, len));] of [main]:
    the send is retried with an empty loop body, so without polling. *)
Fixpoint write_until_accepted (hst : host) (fuel : nat)
    (addr : Z) (buf : list Z) (len : Z) : M unit :=
  let* n := usbd_ep_write_packet hst addr buf len in
  if n =? 0 then
    match fuel with
    | O => spin
    | S fuel' => write_until_accepted hst fuel' addr buf len
    end
  else ret tt.

(** The three bytes of the string literal [">>>"]. *)
Definition prompt : list Z := [62; 62; 62].

(** One turn of the [while (1)] loop of [main].  [buf0] is what the
    uninitialised [char buf[64]] holds; [&&] skips the receive while the
    flag is false. *)
Definition main_loop_body (hst : host) (fuel : nat) (buf0 : list Z) : M unit :=
  (fun w =>
     if is_usb_device_configured w then
       (let* data := usbd_ep_read_packet
                       hst USB_CDCACM_DATA_OUT_ENDPOINT_ADDRESS 64 in
        let buf := data ++ drop (length data) buf0 in
        let i := Z.of_nat (length data) in
        if i =? 0 then ret tt
        else
          write_until_accepted hst fuel
            USB_CDCACM_DATA_IN_ENDPOINT_ADDRESS buf i >>
          write_until_accepted hst fuel
            USB_CDCACM_DATA_IN_ENDPOINT_ADDRESS prompt 3) w
     else Done tt w) >>
  usbd_poll hst.

(** The first [n] turns of the loop, which itself never ends. *)
Fixpoint main_loop (hst : host) (fuel : nat) (buf0 : list Z) (n : nat) : M unit :=
  match n with
  | O => ret tt
  | S n' => main_loop_body hst fuel buf0 >> main_loop hst fuel buf0 n'
  end.

(** The world after one send attempt of [write_until_accepted]. *)
Definition offered (hst : host) (addr : Z) (buf : list Z) (len : Z)
    (w : world) : world :=
  log (ev_ep_write addr (take (Z.to_nat (len mod 65536)) buf)
                   (in_free hst (writes w)))
      (tick_write w).

(** ** Further observations *)

(** The flag of [w'] is true exactly when it was true in [w] or a poll in
    between served a SET_CONFIGURATION request. *)
Definition configured_by_poll (hst : host) (w w' : world) : Prop :=
  (polls w <= polls w')%nat /\
  (is_usb_device_configured w' = true <->
   is_usb_device_configured w = true \/
   exists k, (polls w <= k < polls w')%nat /\ set_configuration hst k <> None).

(** A driver call the descriptors account for: receives on the declared
    bulk-OUT address with at most one endpoint buffer of data, sends on the
    declared bulk-IN address with less than one, set-ups of declared
    endpoints only. *)
Definition well_addressed (e : event) : Prop :=
  match e with
  | ev_ep_read a d =>
      In (a, USB_ENDPOINT_ATTR_BULK, USB_CDCACM_PACKET_SIZE) declared_endpoints /\
      Z.testbit a 7 = false /\
      Z.of_nat (length d) <= USB_CDCACM_PACKET_SIZE
  | ev_ep_write a d _ =>
      In (a, USB_ENDPOINT_ATTR_BULK, USB_CDCACM_PACKET_SIZE) declared_endpoints /\
      Z.testbit a 7 = true /\
      Z.of_nat (length d) < USB_CDCACM_PACKET_SIZE
  | ev_ep_setup a t s => In (a, t, s) declared_endpoints
  | _ => True
  end.

Definition is_byte (b : Z) : Prop := 0 <= b < 256.

(** Everything the receive side holds or will be sent is a byte. *)
Definition bytes_only (w : world) : Prop :=
  Forall is_byte (inbuf w) /\ Forall (Forall is_byte) (host_out w).

(** * Proofs *)

(** ** Descriptors and callbacks *)

(** C5. The configuration descriptor declares 2 interfaces and lists two;
    the Union descriptor carried by the Communications interface names
    interface 0 as control and the Data interface (number 1) as subordinate,
    and the Call-Management descriptor names the Data interface too. *)
Theorem descriptor_integrity :
  bNumInterfaces usb_config_descriptor = 2 /\
  map (fun i => bInterfaceNumber (altsetting i)) (interface usb_config_descriptor)
    = [0; 1] /\
  map altsetting (interface usb_config_descriptor)
    = [cdcacm_communications_interface; cdcacm_data_interface] /\
  exists fd,
    extra cdcacm_communications_interface = Some fd /\
    bControlInterface (fd_u fd) = 0 /\
    bControlInterface (fd_u fd) = bInterfaceNumber cdcacm_communications_interface /\
    bSubordinateInterface0 (fd_u fd) = bInterfaceNumber cdcacm_data_interface /\
    bSubordinateInterface0 (fd_u fd) = 1 /\
    bDataInterface (fd_c fd) = bInterfaceNumber cdcacm_data_interface /\
    bDataInterface (fd_c fd) = 1.
Proof.
  repeat split.
  exists usb_cdcacm_functional_descriptors.
  repeat split.
Qed.

(** C1, as the code has it.  The handler acknowledges every control request
    as handled and leaves the response buffer and length as it found them;
    it never defers to the next callback. *)
Theorem control_callback_always_handled :
  forall req buf len,
    usbd_cdcacm_control_callback req buf len = (USBD_REQ_HANDLED, buf, len).
Proof. intros req buf len. reflexivity. Qed.

(** C1 fails on the code: for a request the handler does not implement it
    answers "handled", not "next callback", and supplies no data. *)
Lemma control_callback_acknowledges_unimplemented :
  usbd_cdcacm_control_callback get_status_request [] 2
    = (USBD_REQ_HANDLED, [], 2) /\
  fst (fst (usbd_cdcacm_control_callback get_status_request [] 2))
    <> USBD_REQ_NEXT_CALLBACK.
Proof. split; [reflexivity | discriminate]. Qed.

Lemma activation_events_declared :
  Forall (fun e => match e with
                   | ev_ep_setup a t s => In (a, t, s) declared_endpoints
                   | _ => True
                   end) activation_events.
Proof.
  repeat constructor; cbn; tauto.
Qed.

(** C8. The callback sets up the notification endpoint as interrupt and the
    two data endpoints as bulk, each with address, type and packet size (64)
    as declared in the descriptors, registers the control handler, and only
    then stores [true] into the configured flag: the store is the last
    event of the callback. *)
Theorem set_config_callback_activates :
  forall wValue w,
  exists w',
    usbd_cdcacm_set_config_callback wValue w = Done tt w' /\
    trace w' = trace w ++
      [ ev_ep_setup 0x82 USB_ENDPOINT_ATTR_INTERRUPT 64;
        ev_ep_setup 0x81 USB_ENDPOINT_ATTR_BULK 64;
        ev_ep_setup 0x01 USB_ENDPOINT_ATTR_BULK 64;
        ev_register_control_callback
          (Z.lor USB_REQ_TYPE_STANDARD USB_REQ_TYPE_INTERFACE)
          (Z.lor USB_REQ_TYPE_TYPE USB_REQ_TYPE_RECIPIENT);
        ev_store_configured true ] /\
    last (trace w') = Some (ev_store_configured true) /\
    is_usb_device_configured w' = true /\
    declared_endpoints =
      [ (0x82, USB_ENDPOINT_ATTR_INTERRUPT, 64);
        (0x81, USB_ENDPOINT_ATTR_BULK, 64);
        (0x01, USB_ENDPOINT_ATTR_BULK, 64) ].
Proof.
  intros wValue w. eexists. split; [reflexivity|].
  cbn. rewrite <- !app_assoc. cbn.
  repeat split.
  rewrite last_app. reflexivity.
Qed.

(** ** The two polling loops *)

Arguments log e w /.
Arguments set_configured v w /.
Arguments set_inbuf b w /.
Arguments set_idx i w /.
Arguments set_inbuf_len n w /.
Arguments set_outbuf b w /.
Arguments set_outbuf_idx i w /.
Arguments set_host_out q w /.
Arguments tick_poll w /.
Arguments tick_read w /.
Arguments tick_write w /.
Arguments bind {A B} m k w /.
Arguments ret {A} a w /.
Arguments get {A} f w /.
Arguments modify f w /.
Arguments spin {A} w /.
Arguments undef {A} w /.
Arguments store_is_usb_device_configured v w /.
Arguments usbd_ep_setup addr type max_size w /.
Arguments usbd_register_control_callback type mask w /.
Arguments usbd_cdcacm_set_config_callback wValue w /.

Ltac split_all := repeat match goal with |- _ /\ _ => split end.

(** Unfolds the monad and the field updates down to [mkWorld] terms. *)
Ltac wsimpl :=
  cbn [bind ret get modify spin undef log set_configured set_inbuf set_idx
       set_inbuf_len set_outbuf set_outbuf_idx set_host_out tick_poll
       tick_read tick_write store_is_usb_device_configured usbd_ep_setup
       usbd_register_control_callback usbd_cdcacm_set_config_callback
       is_usb_device_configured inbuf idx inbuf_len outbuf outbuf_idx
       host_out polls reads writes trace].

Section Loops.
Variable hst : host.

Lemma tx_attempts_app tr1 tr2 :
  tx_attempts (tr1 ++ tr2) = tx_attempts tr1 ++ tx_attempts tr2.
Proof. apply omap_app. Qed.

Lemma tx_accepted_app tr1 tr2 :
  tx_accepted (tr1 ++ tr2) = tx_accepted tr1 ++ tx_accepted tr2.
Proof. apply omap_app. Qed.

Lemma ep_io_app tr1 tr2 : ep_io (tr1 ++ tr2) = ep_io tr1 ++ ep_io tr2.
Proof. apply List.filter_app. Qed.

Lemma poll_events_quiet n :
  tx_attempts (poll_events hst n) = [] /\
  tx_accepted (poll_events hst n) = [] /\
  ep_io (poll_events hst n) = [].
Proof.
  unfold poll_events. destruct (set_configuration hst n); repeat split.
Qed.

Lemma usbd_poll_eq w : usbd_poll hst w = Done tt (polled hst w).
Proof.
  unfold usbd_poll, polled, poll_events.
  destruct (set_configuration hst (polls w)); cbn.
  - wsimpl. rewrite <- !app_assoc. reflexivity.
  - reflexivity.
Qed.

(** *** [sfsync] *)

Lemma sfsync_loop_accepted fuel w :
  in_free hst (writes w) = true ->
  outbuf_idx w mod 65536 <> 0 ->
  sfsync_loop hst fuel w = Done tt (attempted hst w).
Proof.
  intros Hfree Hlen.
  destruct fuel; cbn; unfold bind, usbd_ep_write_packet, attempted, tx_packet;
    rewrite Hfree; apply Z.eqb_neq in Hlen; rewrite Hlen; reflexivity.
Qed.

Lemma sfsync_loop_again fuel w :
  in_free hst (writes w) = false \/ outbuf_idx w mod 65536 = 0 ->
  sfsync_loop hst (S fuel) w
    = sfsync_loop hst fuel (polled hst (attempted hst w)).
Proof.
  intros H. cbn [sfsync_loop]. unfold bind at 1.
  unfold usbd_ep_write_packet.
  destruct (in_free hst (writes w)) eqn:Hfree.
  - destruct H as [H|H]; [discriminate|].
    rewrite H. cbn [Z.eqb]. unfold bind at 1. rewrite usbd_poll_eq.
    unfold attempted, tx_packet. rewrite Hfree, H. reflexivity.
  - cbn [Z.eqb]. unfold bind at 1. rewrite usbd_poll_eq.
    unfold attempted, tx_packet. rewrite Hfree. reflexivity.
Qed.

Lemma sfsync_loop_out_of_fuel w :
  in_free hst (writes w) = false \/ outbuf_idx w mod 65536 = 0 ->
  sfsync_loop hst 0 w = Spin (attempted hst w).
Proof.
  intros H. cbn [sfsync_loop]. unfold bind, usbd_ep_write_packet.
  destruct (in_free hst (writes w)) eqn:Hfree.
  - destruct H as [H|H]; [discriminate|].
    rewrite H. cbn. unfold attempted, tx_packet. rewrite Hfree, H. reflexivity.
  - cbn. unfold attempted, tx_packet. rewrite Hfree. reflexivity.
Qed.

Lemma ends_bind {A B} (m : M A) (k : A -> M B) w
      (P : option A -> world -> Prop) (Q : option B -> world -> Prop) :
  ends (m w) P ->
  (forall a w', P (Some a) w' -> ends (k a w') Q) ->
  (forall w', P None w' -> Q None w') ->
  ends (bind m k w) Q.
Proof.
  unfold bind. destruct (m w); cbn; intros H Hk Hs; auto.
Qed.

Lemma ends_weaken {A} (o : outcome A) (P Q : option A -> world -> Prop) :
  ends o P -> (forall r w, P r w -> Q r w) -> ends o Q.
Proof. destruct o; cbn; auto. Qed.

Lemma tx_packet_polled_attempted w :
  tx_packet (polled hst (attempted hst w)) = tx_packet w.
Proof. reflexivity. Qed.

Lemma tx_attempts_polled w :
  tx_attempts (trace (polled hst w)) = tx_attempts (trace w).
Proof.
  cbn [polled trace]. rewrite tx_attempts_app.
  destruct (poll_events_quiet (polls w)) as (-> & _). apply app_nil_r.
Qed.

Lemma tx_accepted_polled w :
  tx_accepted (trace (polled hst w)) = tx_accepted (trace w).
Proof.
  cbn [polled trace]. rewrite tx_accepted_app.
  destruct (poll_events_quiet (polls w)) as (_ & -> & _). apply app_nil_r.
Qed.

Lemma tx_attempts_attempted w :
  tx_attempts (trace (attempted hst w)) = tx_attempts (trace w) ++ [tx_packet w].
Proof. unfold attempted, log. cbn [trace tick_write]. apply tx_attempts_app. Qed.

Lemma tx_accepted_attempted w :
  tx_accepted (trace (attempted hst w))
  = tx_accepted (trace w)
    ++ (if in_free hst (writes w) then [tx_packet w] else []).
Proof.
  unfold attempted, log. cbn [trace tick_write]. rewrite tx_accepted_app.
  destruct (in_free hst (writes w)); reflexivity.
Qed.

(** What [sfsync]'s loop does, however it ends: it touches neither the
    receive side nor the output buffer, every packet it hands over is the
    pending one, and the accepted ones carry the pending bytes exactly
    once if it returns and no byte at all if it does not. *)
Lemma sfsync_loop_spec fuel : forall w,
  ends (sfsync_loop hst fuel w) (fun r w' =>
    rx_side_kept w w' /\ outbuf w' = outbuf w /\ outbuf_idx w' = outbuf_idx w /\
    (exists k, tx_attempts (trace w')
               = tx_attempts (trace w) ++ repeat (tx_packet w) (S k)) /\
    (exists acc, tx_accepted (trace w') = tx_accepted (trace w) ++ acc /\
                 concat acc = match r with
                              | Some _ => tx_packet w
                              | None => []
                              end) /\
    (r <> None -> outbuf_idx w mod 65536 <> 0)).
Proof.
  assert (Hzero : forall w, outbuf_idx w mod 65536 = 0 -> tx_packet w = []).
  { intros w Hz. unfold tx_packet. rewrite Hz. reflexivity. }
  assert (Hstop : forall w (r : option unit),
    r = (if in_free hst (writes w)
         then if Z.eq_dec (outbuf_idx w mod 65536) 0 then None else Some tt
         else None) ->
    rx_side_kept w (attempted hst w) /\
    outbuf (attempted hst w) = outbuf w /\
    outbuf_idx (attempted hst w) = outbuf_idx w /\
    (exists k, tx_attempts (trace (attempted hst w))
               = tx_attempts (trace w) ++ repeat (tx_packet w) (S k)) /\
    (exists acc, tx_accepted (trace (attempted hst w))
                 = tx_accepted (trace w) ++ acc /\
                 concat acc = match r with
                              | Some _ => tx_packet w
                              | None => []
                              end) /\
    (r <> None -> outbuf_idx w mod 65536 <> 0)).
  { intros w r ->. unfold rx_side_kept. repeat split.
    - exists O. apply tx_attempts_attempted.
    - eexists. split; [apply tx_accepted_attempted|].
      destruct (in_free hst (writes w)); [|reflexivity].
      cbn. rewrite app_nil_r.
      destruct (Z.eq_dec (outbuf_idx w mod 65536) 0) as [Hz|Hz]; auto.
    - destruct (in_free hst (writes w)); [|congruence].
      destruct (Z.eq_dec (outbuf_idx w mod 65536) 0); congruence. }
  induction fuel as [|fuel IH]; intros w.
  - destruct (in_free hst (writes w)) eqn:Hfree;
      [destruct (Z.eq_dec (outbuf_idx w mod 65536) 0) as [Hz|Hz]|].
    + rewrite sfsync_loop_out_of_fuel by auto. apply Hstop.
      rewrite Hfree. destruct (Z.eq_dec _ 0); congruence.
    + rewrite sfsync_loop_accepted by auto. apply Hstop.
      rewrite Hfree. destruct (Z.eq_dec _ 0); congruence.
    + rewrite sfsync_loop_out_of_fuel by auto. apply Hstop.
      rewrite Hfree. reflexivity.
  - destruct (in_free hst (writes w)) eqn:Hfree;
      [destruct (Z.eq_dec (outbuf_idx w mod 65536) 0) as [Hz|Hz]|].
    2:{ rewrite sfsync_loop_accepted by auto. apply Hstop.
        rewrite Hfree. destruct (Z.eq_dec _ 0); congruence. }
    all: rewrite sfsync_loop_again by auto;
      eapply ends_weaken; [apply IH|];
      intros r w' (Hrx & Hob & Hoi & [k Hk] & [acc [Hacc Hcat]] & Hr);
      rewrite tx_packet_polled_attempted in *;
      rewrite tx_attempts_polled, tx_attempts_attempted in Hk;
      rewrite tx_accepted_polled, tx_accepted_attempted, Hfree in Hacc;
      (split; [exact Hrx|]); (split; [exact Hob|]); (split; [exact Hoi|]);
      (split; [exists (S k); rewrite Hk, <- !app_assoc; reflexivity|]);
      (split; [|exact Hr]).
    + exists (tx_packet w :: acc). split.
      * rewrite Hacc, <- !app_assoc. reflexivity.
      * cbn [concat]. rewrite (Hzero w Hz) in *. exact Hcat.
    + exists acc. split; [|exact Hcat].
      rewrite Hacc, app_nil_r. reflexivity.
Qed.

Lemma extends_refl w : extends w w.
Proof. exists []. symmetry. apply app_nil_r. Qed.

Lemma extends_trans w1 w2 w3 : extends w1 w2 -> extends w2 w3 -> extends w1 w3.
Proof.
  intros [e1 H1] [e2 H2]. exists (e1 ++ e2).
  rewrite H2, H1, app_assoc. reflexivity.
Qed.

Lemma extends_polled w : extends w (polled hst w).
Proof. eexists. reflexivity. Qed.

Lemma extends_attempted w : extends w (attempted hst w).
Proof. eexists. reflexivity. Qed.

Lemma sfsync_loop_extends fuel : forall w,
  ends (sfsync_loop hst fuel w) (fun _ w' => extends (attempted hst w) w').
Proof.
  induction fuel as [|fuel IH]; intros w;
    (destruct (in_free hst (writes w)) eqn:Hfree;
     [destruct (Z.eq_dec (outbuf_idx w mod 65536) 0) as [Hz|Hz]|]).
  all: try (rewrite sfsync_loop_out_of_fuel by auto; apply extends_refl).
  all: try (rewrite sfsync_loop_accepted by auto; apply extends_refl).
  all: rewrite sfsync_loop_again by auto;
    eapply ends_weaken; [apply IH|]; cbn beta; intros _ w' H;
    eapply extends_trans; [|exact H];
    eapply extends_trans; [apply extends_polled|apply extends_attempted].
Qed.

(** Once the endpoint is free at some later attempt, the loop returns for
    every fuel that reaches it, always in the same world. *)
Lemma sfsync_loop_returns_at k : forall w,
  in_free hst (writes w + k) = true ->
  outbuf_idx w mod 65536 <> 0 ->
  exists w', forall fuel, (k <= fuel)%nat ->
    sfsync_loop hst fuel w = Done tt w'.
Proof.
  induction k as [|k IH]; intros w Hk Hnz.
  - rewrite Nat.add_0_r in Hk. exists (attempted hst w). intros fuel _.
    apply sfsync_loop_accepted; assumption.
  - destruct (in_free hst (writes w)) eqn:Hfree.
    + exists (attempted hst w). intros fuel _.
      apply sfsync_loop_accepted; assumption.
    + destruct (IH (polled hst (attempted hst w))) as [w' Hw'].
      * cbn. rewrite <- Nat.add_succ_r. exact Hk.
      * exact Hnz.
      * exists w'. intros [|fuel] Hle; [lia|].
        rewrite sfsync_loop_again by auto. apply Hw'. lia.
Qed.

Lemma sfsync_loop_returns w :
  infinitely_often (in_free hst) ->
  outbuf_idx w mod 65536 <> 0 ->
  exists F w', forall fuel, (F <= fuel)%nat ->
    sfsync_loop hst fuel w = Done tt w'.
Proof.
  intros Hio Hnz. destruct (Hio (writes w)) as (m & Hm & Hfree).
  destruct (sfsync_loop_returns_at (m - writes w) w) as [w' Hw']; auto.
  - replace (writes w + (m - writes w))%nat with m by lia. exact Hfree.
  - eauto.
Qed.

(** With nothing buffered the driver's answer is 0 whether it took the
    zero-length packet or not, so the loop polls on for ever. *)
Lemma sfsync_loop_empty_spins fuel w :
  outbuf_idx w mod 65536 = 0 ->
  exists w', sfsync_loop hst fuel w = Spin w'.
Proof.
  intros Hz. pose proof (sfsync_loop_spec fuel w) as H.
  destruct (sfsync_loop hst fuel w) as [[] w'|w'|]; cbn in H.
  - destruct H as (_ & _ & _ & _ & _ & H). exfalso. apply H; congruence.
  - eauto.
  - contradiction.
Qed.

Lemma ends_and {A} (o : outcome A) (P Q : option A -> world -> Prop) :
  ends o P -> ends o Q -> ends o (fun r w => P r w /\ Q r w).
Proof. destruct o; cbn; auto. Qed.

(** [sfsync]: the first thing it does is a send attempt with the pending
    packet; the cursor is reset only if the loop returns. *)
Lemma sfsync_spec fuel w :
  ends (sfsync hst fuel w) (fun r w' =>
    rx_side_kept w w' /\ outbuf w' = outbuf w /\
    outbuf_idx w' = match r with Some _ => 0 | None => outbuf_idx w end /\
    (r <> None -> outbuf_idx w mod 65536 <> 0) /\
    exists evs,
      trace w' = trace w ++ evs /\
      (exists evs', evs = ev_ep_write USB_CDCACM_DATA_IN_ENDPOINT_ADDRESS
                                      (tx_packet w) (in_free hst (writes w))
                          :: evs') /\
      (exists k, tx_attempts evs = repeat (tx_packet w) (S k)) /\
      concat (tx_accepted evs) = match r with
                                 | Some _ => tx_packet w
                                 | None => []
                                 end).
Proof.
  unfold sfsync.
  eapply ends_bind;
    [apply ends_and; [apply sfsync_loop_spec|apply sfsync_loop_extends]| |];
    cbn beta.
  - intros [] w' [(Hrx & Hob & Hoi & [k Hk] & [acc [Hacc Hcat]] & Hr) [evs Hevs]].
    cbn. split; [exact Hrx|]. split; [exact Hob|]. split; [reflexivity|].
    split; [intros _; apply Hr; congruence|].
    exists (ev_ep_write USB_CDCACM_DATA_IN_ENDPOINT_ADDRESS
                        (tx_packet w) (in_free hst (writes w)) :: evs).
    assert (Htr : trace w' = trace w ++
              ev_ep_write USB_CDCACM_DATA_IN_ENDPOINT_ADDRESS
                          (tx_packet w) (in_free hst (writes w)) :: evs).
    { rewrite Hevs. cbn. rewrite <- app_assoc. reflexivity. }
    split; [exact Htr|]. split; [eauto|].
    rewrite Htr, tx_attempts_app in Hk. rewrite Htr, tx_accepted_app in Hacc.
    apply app_inv_head in Hk, Hacc. split; [eauto|]. rewrite Hacc. exact Hcat.
  - intros w' [(Hrx & Hob & Hoi & [k Hk] & [acc [Hacc Hcat]] & Hr) [evs Hevs]].
    split; [exact Hrx|]. split; [exact Hob|]. split; [exact Hoi|].
    split; [congruence|].
    exists (ev_ep_write USB_CDCACM_DATA_IN_ENDPOINT_ADDRESS
                        (tx_packet w) (in_free hst (writes w)) :: evs).
    assert (Htr : trace w' = trace w ++
              ev_ep_write USB_CDCACM_DATA_IN_ENDPOINT_ADDRESS
                          (tx_packet w) (in_free hst (writes w)) :: evs).
    { rewrite Hevs. cbn. rewrite <- app_assoc. reflexivity. }
    split; [exact Htr|]. split; [eauto|].
    rewrite Htr, tx_attempts_app in Hk. rewrite Htr, tx_accepted_app in Hacc.
    apply app_inv_head in Hk, Hacc. split; [eauto|]. rewrite Hacc. exact Hcat.
Qed.

Lemma sfsync_returns w :
  infinitely_often (in_free hst) ->
  outbuf_idx w mod 65536 <> 0 ->
  exists F w', forall fuel, (F <= fuel)%nat -> sfsync hst fuel w = Done tt w'.
Proof.
  intros Hio Hnz. destruct (sfsync_loop_returns w Hio Hnz) as (F & w' & H).
  exists F, (set_outbuf_idx 0 w'). intros fuel Hle.
  unfold sfsync, bind. rewrite (H fuel Hle). reflexivity.
Qed.

(** *** [sfputc] *)

Lemma sfputc_eq fuel c w :
  0 <= outbuf_idx w < Z.of_nat (length (outbuf w)) ->
  sfputc hst fuel c w
  = if outbuf_idx w + 1 =? sizeof_outbuf
    then sfsync hst fuel (appended c w)
    else Done tt (appended c w).
Proof.
  intros [H0 H1]. unfold sfputc, store_outbuf, bind at 1 2 3 4, get, modify.
  apply Z.leb_le in H0. apply Z.ltb_lt in H1. rewrite H0, H1. cbn [andb].
  cbn [outbuf_idx set_outbuf_idx set_outbuf].
  change (set_outbuf_idx _ (set_outbuf _ w)) with (appended c w).
  destruct (outbuf_idx w + 1 =? sizeof_outbuf); reflexivity.
Qed.

Lemma tx_stream_appended c w :
  0 <= outbuf_idx w < Z.of_nat (length (outbuf w)) ->
  tx_stream (appended c w) = tx_stream w ++ [to_uint8 c].
Proof.
  intros [H0 H1]. unfold tx_stream, appended.
  cbn [trace outbuf outbuf_idx set_outbuf_idx set_outbuf].
  rewrite <- app_assoc. f_equal.
  replace (Z.to_nat (outbuf_idx w + 1)) with (S (Z.to_nat (outbuf_idx w))) by lia.
  rewrite (take_S_r _ _ (to_uint8 c)).
  - rewrite take_insert_ge by lia. reflexivity.
  - apply list_lookup_insert_eq. lia.
Qed.

Lemma tx_packet_small w :
  0 <= outbuf_idx w < 65536 ->
  tx_packet w = take (Z.to_nat (outbuf_idx w)) (outbuf w).
Proof. intros H. unfold tx_packet. rewrite Z.mod_small by lia. reflexivity. Qed.

(** A flush moves bytes from [outbuf] to the driver, or leaves them where
    they are: the stream of bytes given to [sfputc] is unchanged. *)
Lemma sfsync_stream fuel w :
  0 <= outbuf_idx w < 65536 ->
  ends (sfsync hst fuel w) (fun _ w' => tx_stream w' = tx_stream w).
Proof.
  intros Hidx. eapply ends_weaken; [apply sfsync_spec|]. cbn beta.
  intros r w' (_ & Hob & Hoi & _ & evs & Htr & _ & _ & Hcat).
  unfold tx_stream. rewrite Htr, tx_accepted_app, concat_app, Hcat, Hob, Hoi.
  rewrite <- app_assoc. f_equal.
  destruct r; [|reflexivity].
  rewrite tx_packet_small by exact Hidx. cbn. apply app_nil_r.
Qed.

Lemma sfputc_spec fuel c w :
  between_calls w ->
  ends (sfputc hst fuel c w) (fun r w' =>
    rx_side_kept w w' /\
    outbuf w' = <[Z.to_nat (outbuf_idx w) := to_uint8 c]> (outbuf w) /\
    tx_stream w' = tx_stream w ++ [to_uint8 c] /\
    match r with
    | Some _ => between_calls w' /\
                outbuf_idx w' = (outbuf_idx w + 1) mod sizeof_outbuf
    | None => outbuf_idx w + 1 = sizeof_outbuf /\
              outbuf_idx w' = sizeof_outbuf
    end /\
    exists evs,
      trace w' = trace w ++ evs /\
      if outbuf_idx w + 1 =? sizeof_outbuf
      then (exists evs', evs = ev_ep_write USB_CDCACM_DATA_IN_ENDPOINT_ADDRESS
                                 (take (Z.to_nat sizeof_outbuf) (outbuf w'))
                                 (in_free hst (writes w)) :: evs') /\
           (exists k, tx_attempts evs
                      = repeat (take (Z.to_nat sizeof_outbuf) (outbuf w')) (S k))
      else evs = []).
Proof.
  intros (Hli & Hlo & Hi0 & Hi1 & Hi2 & Ho0 & Ho1).
  assert (Hso : sizeof_outbuf = 63) by reflexivity.
  assert (Hrange : 0 <= outbuf_idx w < Z.of_nat (length (outbuf w))).
  { rewrite Hlo. rewrite Hso in *. lia. }
  rewrite sfputc_eq by exact Hrange.
  pose proof (tx_stream_appended c w Hrange) as Hstream.
  destruct (outbuf_idx w + 1 =? sizeof_outbuf) eqn:Hfull.
  - apply Z.eqb_eq in Hfull.
    assert (Hidx1 : outbuf_idx (appended c w) = sizeof_outbuf) by exact Hfull.
    assert (Hpk : tx_packet (appended c w)
                  = take (Z.to_nat sizeof_outbuf) (outbuf (appended c w))).
    { rewrite tx_packet_small; rewrite Hidx1; [reflexivity|rewrite Hso; lia]. }
    eapply ends_weaken;
      [apply ends_and; [apply sfsync_spec|apply (sfsync_stream fuel (appended c w))]|].
    { rewrite Hidx1, Hso. lia. }
    cbn beta.
    intros r w' [(Hrx & Hob & Hoi & _ & evs & Htr & Hhd & Hk & _) Hst].
    split; [exact Hrx|]. split; [exact Hob|].
    split; [rewrite Hst; exact Hstream|].
    split.
    + destruct r.
      * split.
        -- destruct Hrx as (E1 & E2 & E3 & _). unfold between_calls.
           rewrite E1, E2, E3, Hob, Hoi. cbn [inbuf idx inbuf_len outbuf appended
             set_outbuf set_outbuf_idx]. rewrite length_insert.
           rewrite Hso in *. repeat split; auto; lia.
        -- rewrite Hoi, Hfull, Z.mod_same; [reflexivity|rewrite Hso; lia].
      * split; [exact Hfull|]. rewrite Hoi. exact Hidx1.
    + exists evs. split; [exact Htr|].
      rewrite Hob, <- Hpk. split; assumption.
  - apply Z.eqb_neq in Hfull. cbn.
    split; [repeat split|]. split; [reflexivity|]. split; [exact Hstream|].
    split.
    + split.
      * unfold between_calls. cbn. rewrite length_insert.
        rewrite Hso in *. repeat split; auto; lia.
      * cbn. rewrite Z.mod_small; [reflexivity|rewrite Hso in *; lia].
    + exists []. split; [symmetry; apply app_nil_r|reflexivity].
Qed.

(** *** [sfgetc] *)

Lemma sfgetc_loop_ready fuel w :
  idx w <> inbuf_len w -> sfgetc_loop hst fuel w = Done tt w.
Proof.
  intros H. apply Z.eqb_neq in H. destruct fuel; cbn; rewrite H; reflexivity.
Qed.

Lemma sfgetc_loop_out_of_fuel w :
  idx w = inbuf_len w -> sfgetc_loop hst 0 w = Spin w.
Proof. intros H. apply Z.eqb_eq in H. cbn. rewrite H. reflexivity. Qed.

Lemma sfgetc_loop_again fuel w :
  idx w = inbuf_len w ->
  sfgetc_loop hst (S fuel) w = sfgetc_loop hst fuel (received hst w).
Proof.
  intros H. apply Z.eqb_eq in H. cbn [sfgetc_loop]. rewrite H.
  unfold bind at 1. rewrite usbd_poll_eq.
  unfold bind at 1. unfold modify at 1.
  unfold bind at 1. unfold usbd_ep_read_packet, received, rx_next, rx_rest.
  cbn [reads set_idx polled host_out].
  change (USB_CDCACM_DATA_OUT_ENDPOINT_ADDRESS =? USB_CDCACM_DATA_OUT_ENDPOINT_ADDRESS)
    with true.
  change (sizeof_inbuf mod 65536) with sizeof_inbuf.
  cbn [andb].
  destruct (out_arrived hst (reads w)); [destruct (host_out w) as [|p rest] eqn:Hq|];
    unfold polled; wsimpl; rewrite <- ?app_assoc, ?Hq; reflexivity.
Qed.

Lemma rx_next_short w : (length (rx_next hst w) <= Z.to_nat sizeof_inbuf)%nat.
Proof.
  unfold rx_next. destruct (out_arrived hst (reads w)); [|cbn; lia].
  destruct (host_out w); [cbn; lia|]. rewrite length_take. lia.
Qed.

Lemma received_between_calls w :
  between_calls w -> between_calls (received hst w).
Proof.
  intros (Hli & Hlo & Hi0 & Hi1 & Hi2 & Ho0 & Ho1).
  pose proof (rx_next_short w) as Hs.
  unfold between_calls, received.
  cbn [inbuf idx inbuf_len outbuf outbuf_idx].
  rewrite length_app, length_drop.
  change sizeof_inbuf with 64 in *. repeat split; auto; lia.
Qed.

Lemma received_tx_side_kept w : tx_side_kept w (received hst w).
Proof.
  unfold tx_side_kept, received. cbn [outbuf outbuf_idx writes trace].
  rewrite !tx_attempts_app, !tx_accepted_app.
  destruct (poll_events_quiet (polls w)) as (-> & -> & _).
  cbn. rewrite !app_nil_r. repeat split.
Qed.

Lemma extends_received w : extends w (received hst w).
Proof. eexists. reflexivity. Qed.

Lemma rx_pending_exhausted w :
  idx w = inbuf_len w -> rx_pending w = concat (host_out w).
Proof.
  intros H. unfold rx_pending. rewrite H, drop_ge; [reflexivity|].
  rewrite length_take. lia.
Qed.

(** One turn of the receive loop moves at most one packet from the host's
    queue into [inbuf]: no byte is lost or reordered. *)
Lemma received_pending w :
  idx w = inbuf_len w ->
  packets_fit (host_out w) ->
  packets_fit (host_out (received hst w)) /\
  rx_pending (received hst w) = rx_pending w.
Proof.
  intros Hex Hfit. rewrite (rx_pending_exhausted w Hex).
  unfold rx_pending, received, rx_next, rx_rest.
  cbn [inbuf idx inbuf_len host_out]. rewrite Nat2Z.id.
  change (Z.to_nat 0) with O. rewrite drop_0, take_app_length.
  destruct (out_arrived hst (reads w)); [|split; [exact Hfit|reflexivity]].
  destruct (host_out w) as [|p q]; [split; [exact Hfit|reflexivity]|].
  inversion Hfit as [|? ? Hp Hq]; subst.
  split; [exact Hq|]. cbn [tail concat]. f_equal.
  apply take_ge. exact Hp.
Qed.

Lemma tx_side_kept_trans w1 w2 w3 :
  tx_side_kept w1 w2 -> tx_side_kept w2 w3 -> tx_side_kept w1 w3.
Proof.
  unfold tx_side_kept. intros (A1 & A2 & A3 & A4 & A5) (B1 & B2 & B3 & B4 & B5).
  repeat split; congruence.
Qed.

Lemma tx_side_kept_refl w : tx_side_kept w w.
Proof. repeat split. Qed.

Lemma sfgetc_loop_spec fuel : forall w,
  between_calls w ->
  ends (sfgetc_loop hst fuel w) (fun r w' =>
    between_calls w' /\ tx_side_kept w w' /\ extends w w' /\
    (packets_fit (host_out w) ->
     packets_fit (host_out w') /\ rx_pending w' = rx_pending w) /\
    match r with
    | Some _ => idx w' <> inbuf_len w'
    | None => idx w' = inbuf_len w'
    end).
Proof.
  induction fuel as [|fuel IH]; intros w Hbc;
    destruct (Z.eq_dec (idx w) (inbuf_len w)) as [Hex|Hne].
  - rewrite sfgetc_loop_out_of_fuel by exact Hex. cbn.
    split_all; auto using tx_side_kept_refl, extends_refl.
  - rewrite sfgetc_loop_ready by exact Hne. cbn.
    split_all; auto using tx_side_kept_refl, extends_refl.
  - rewrite sfgetc_loop_again by exact Hex.
    eapply ends_weaken; [apply IH, received_between_calls, Hbc|]. cbn beta.
    intros r w' (Hbc' & Htx & Hext & Hpend & Hr).
    split; [exact Hbc'|].
    split; [eapply tx_side_kept_trans; [apply received_tx_side_kept|exact Htx]|].
    split; [eapply extends_trans; [apply extends_received|exact Hext]|].
    split; [|exact Hr].
    intros Hfit. destruct (received_pending w Hex Hfit) as [Hfit' Heq].
    destruct (Hpend Hfit') as [Hfit'' Heq']. split; congruence.
  - rewrite sfgetc_loop_ready by exact Hne. cbn.
    split_all; auto using tx_side_kept_refl, extends_refl.
Qed.

(** [return inbuf[idx ++]] with unread bytes in the buffer. *)
Lemma sfgetc_take w :
  between_calls w ->
  idx w <> inbuf_len w ->
  exists b,
    inbuf w !! Z.to_nat (idx w) = Some b /\
    (let* i := get idx in
     let* b := (fun w => load (inbuf w) i w) in
     modify (set_idx (i + 1)) >> ret b) w
    = Done b (set_idx (idx w + 1) w) /\
    rx_pending w = b :: rx_pending (set_idx (idx w + 1) w).
Proof.
  intros (Hli & Hlo & Hi0 & Hi1 & Hi2 & Ho0 & Ho1) Hne.
  change sizeof_inbuf with 64 in *.
  assert (Hlt : (Z.to_nat (idx w) < length (inbuf w))%nat) by lia.
  destruct (lookup_lt_is_Some_2 _ _ Hlt) as [b Hb].
  exists b. split; [exact Hb|]. split.
  - unfold bind, get, load, modify, ret.
    replace (0 <=? idx w) with true by (symmetry; apply Z.leb_le; lia).
    replace (idx w <? Z.of_nat (length (inbuf w))) with true
      by (symmetry; apply Z.ltb_lt; lia).
    cbn [andb]. rewrite Hb. reflexivity.
  - unfold rx_pending. cbn [idx inbuf_len inbuf host_out set_idx].
    replace (Z.to_nat (idx w + 1)) with (S (Z.to_nat (idx w))) by lia.
    rewrite (drop_S _ b (Z.to_nat (idx w))); [reflexivity|].
    rewrite lookup_take_lt by lia. exact Hb.
Qed.

Lemma sfgetc_spec fuel w :
  between_calls w ->
  ends (sfgetc hst fuel w) (fun r w' =>
    between_calls w' /\ tx_side_kept w w' /\ extends w w' /\
    (packets_fit (host_out w) ->
     packets_fit (host_out w') /\
     match r with
     | Some b => rx_pending w = b :: rx_pending w'
     | None => rx_pending w' = rx_pending w
     end)).
Proof.
  intros Hbc. unfold sfgetc.
  eapply ends_bind; [apply sfgetc_loop_spec, Hbc| |]; cbn beta.
  - intros [] w1 (Hbc1 & Htx & Hext & Hpend & Hne).
    destruct (sfgetc_take w1 Hbc1 Hne) as (b & Hb & -> & Hrx). cbn.
    split.
    { destruct Hbc1 as (Hli & Hlo & Hi0 & Hi1 & Hi2 & Ho0 & Ho1).
      unfold between_calls. cbn. repeat split; auto; lia. }
    split; [exact Htx|]. split; [exact Hext|].
    intros Hfit. destruct (Hpend Hfit) as [Hfit1 Heq].
    split; [exact Hfit1|]. rewrite <- Heq. exact Hrx.
  - intros w1 (Hbc1 & Htx & Hext & Hpend & _). tauto.
Qed.

(** The loop returns once a non-empty packet has been received; the host
    may be late, and may send empty packets first. *)
Lemma sfgetc_loop_returns :
  infinitely_often (out_arrived hst) ->
  forall q w,
    host_out w = q ->
    concat q <> [] ->
    exists F w', forall fuel, (F <= fuel)%nat ->
      sfgetc_loop hst fuel w = Done tt w'.
Proof.
  intros Hio q. induction q as [|p q IHq]; intros w Hq Hdata.
  { exfalso. apply Hdata. reflexivity. }
  destruct (Z.eq_dec (idx w) (inbuf_len w)) as [Hex|Hne].
  2:{ exists O, w. intros fuel _. apply sfgetc_loop_ready, Hne. }
  assert (Hstep : forall w, host_out w = p :: q -> idx w = inbuf_len w ->
            out_arrived hst (reads w) = true ->
            exists F w', forall fuel, (F <= fuel)%nat ->
              sfgetc_loop hst fuel w = Done tt w').
  { clear w Hq Hex. intros w Hq Hex Harr.
    assert (Hnext : rx_next hst w = take (Z.to_nat sizeof_inbuf) p).
    { unfold rx_next. rewrite Harr, Hq. reflexivity. }
    assert (Hrest : host_out (received hst w) = q).
    { unfold received, rx_rest. cbn [host_out]. rewrite Harr, Hq. reflexivity. }
    destruct p as [|b p].
    - destruct (IHq (received hst w) Hrest Hdata) as (F & w' & HF).
      exists (S F), w'. intros [|fuel] Hle; [lia|].
      rewrite sfgetc_loop_again by exact Hex. apply HF. lia.
    - exists 1%nat, (received hst w). intros [|fuel] Hle; [lia|].
      rewrite sfgetc_loop_again by exact Hex.
      apply sfgetc_loop_ready. unfold received. cbn [idx inbuf_len].
      rewrite Hnext. change (Z.to_nat sizeof_inbuf) with 64%nat.
      cbn [take length]. lia. }
  destruct (Hio (reads w)) as (m & Hm & Harr).
  remember (m - reads w)%nat as k eqn:Hk.
  revert w Hq Hex Hm Hk.
  induction k as [|k IHk]; intros w Hq Hex Hm Hk.
  - apply Hstep; auto. replace (reads w) with m by lia. exact Harr.
  - destruct (out_arrived hst (reads w)) eqn:Hnow; [apply Hstep; auto|].
    destruct (IHk (received hst w)) as (F & w' & HF).
    + unfold received, rx_rest. cbn [host_out]. rewrite Hnow. exact Hq.
    + unfold received, rx_next. cbn [idx inbuf_len]. rewrite Hnow. reflexivity.
    + cbn. lia.
    + cbn. lia.
    + exists (S F), w'. intros [|fuel] Hle; [lia|].
      rewrite sfgetc_loop_again by exact Hex. apply HF. lia.
Qed.

Lemma sfgetc_returns w :
  infinitely_often (out_arrived hst) ->
  between_calls w ->
  packets_fit (host_out w) ->
  rx_pending w <> [] ->
  exists F b w',
    (forall fuel, (F <= fuel)%nat -> sfgetc hst fuel w = Done b w') /\
    between_calls w' /\ packets_fit (host_out w') /\
    rx_pending w = b :: rx_pending w'.
Proof.
  intros Hio Hbc Hfit Hdata.
  assert (Hloop : exists F w1, forall fuel, (F <= fuel)%nat ->
                    sfgetc_loop hst fuel w = Done tt w1).
  { destruct (Z.eq_dec (idx w) (inbuf_len w)) as [Hex|Hne].
    - apply (sfgetc_loop_returns Hio (host_out w)); [reflexivity|].
      rewrite <- (rx_pending_exhausted w Hex). exact Hdata.
    - exists O, w. intros fuel _. apply sfgetc_loop_ready, Hne. }
  destruct Hloop as (F & w1 & HF).
  pose proof (sfgetc_loop_spec F w Hbc) as Hspec.
  rewrite (HF F (Nat.le_refl F)) in Hspec. cbn in Hspec.
  destruct Hspec as (Hbc1 & _ & _ & Hpend & Hne).
  destruct (sfgetc_take w1 Hbc1 Hne) as (b & _ & Htake & Hrx).
  assert (Hget : forall fuel, (F <= fuel)%nat ->
                   sfgetc hst fuel w = Done b (set_idx (idx w1 + 1) w1)).
  { intros fuel Hle. unfold sfgetc. unfold bind at 1.
    rewrite (HF fuel Hle). exact Htake. }
  exists F, b, (set_idx (idx w1 + 1) w1). split; [exact Hget|].
  pose proof (sfgetc_spec F w Hbc) as Hs.
  rewrite (Hget F (Nat.le_refl F)) in Hs. cbn [ends] in Hs.
  destruct Hs as (Hbc2 & _ & _ & Hp). destruct (Hp Hfit) as [Hfit2 Heq].
  auto.
Qed.

(** With no byte buffered and none queued, [sfgetc] does not return. *)
Lemma sfgetc_blocks fuel w :
  between_calls w ->
  packets_fit (host_out w) ->
  rx_pending w = [] ->
  exists w', sfgetc hst fuel w = Spin w'.
Proof.
  intros Hbc Hfit Hnone. pose proof (sfgetc_spec fuel w Hbc) as Hs.
  destruct (sfgetc hst fuel w) as [b w'|w'|]; cbn in Hs.
  - destruct Hs as (_ & _ & _ & Hp). destruct (Hp Hfit) as [_ Heq].
    congruence.
  - eauto.
  - contradiction.
Qed.

(** Successive calls return the pending bytes in order. *)
Lemma sfgetc_n_returns :
  infinitely_often (out_arrived hst) ->
  forall n w,
    between_calls w ->
    packets_fit (host_out w) ->
    (n <= length (rx_pending w))%nat ->
    exists F w',
      (forall fuel, (F <= fuel)%nat ->
         sfgetc_n hst fuel n w = Done (take n (rx_pending w)) w') /\
      between_calls w' /\ packets_fit (host_out w') /\
      rx_pending w' = drop n (rx_pending w).
Proof.
  intros Hio n. induction n as [|n IH]; intros w Hbc Hfit Hn.
  - exists O, w. split; [intros; reflexivity|]. auto.
  - assert (Hdata : rx_pending w <> []).
    { intros E. rewrite E in Hn. cbn in Hn. lia. }
    destruct (sfgetc_returns w Hio Hbc Hfit Hdata)
      as (F1 & b & w1 & H1 & Hbc1 & Hfit1 & Heq).
    rewrite Heq in Hn. cbn [length] in Hn.
    destruct (IH w1 Hbc1 Hfit1) as (F2 & w2 & H2 & Hbc2 & Hfit2 & Heq2); [lia|].
    exists (Nat.max F1 F2), w2. rewrite Heq. cbn [take drop].
    split; [|auto].
    intros fuel Hle. cbn [sfgetc_n]. unfold bind.
    rewrite H1 by lia. rewrite H2 by lia. reflexivity.
Qed.

(** *** Sequences of calls *)

Lemma rx_side_kept_trans w1 w2 w3 :
  rx_side_kept w1 w2 -> rx_side_kept w2 w3 -> rx_side_kept w1 w3.
Proof.
  unfold rx_side_kept. intros (A1 & A2 & A3 & A4 & A5) (B1 & B2 & B3 & B4 & B5).
  repeat split; congruence.
Qed.

Lemma sfputc_returns c w :
  infinitely_often (in_free hst) ->
  between_calls w ->
  exists F w', forall fuel, (F <= fuel)%nat ->
    sfputc hst fuel c w = Done tt w'.
Proof.
  intros Hio (Hli & Hlo & Hi0 & Hi1 & Hi2 & Ho0 & Ho1).
  change sizeof_outbuf with 63 in *.
  assert (Hrange : 0 <= outbuf_idx w < Z.of_nat (length (outbuf w))).
  { rewrite Hlo. lia. }
  destruct (outbuf_idx w + 1 =? 63) eqn:Hfull.
  - apply Z.eqb_eq in Hfull.
    destruct (sfsync_returns (appended c w) Hio) as (F & w' & HF).
    { cbn. rewrite Hfull. discriminate. }
    exists F, w'. intros fuel Hle. rewrite sfputc_eq by exact Hrange.
    change sizeof_outbuf with 63. apply Z.eqb_eq in Hfull. rewrite Hfull.
    apply HF, Hle.
  - exists O, (appended c w). intros fuel _. rewrite sfputc_eq by exact Hrange.
    change sizeof_outbuf with 63. rewrite Hfull. reflexivity.
Qed.

(** Every packet [sfputc] hands to the driver is a full [outbuf]. *)
Lemma sfputc_packets fuel c w :
  between_calls w ->
  ends (sfputc hst fuel c w) (fun _ w' =>
    exists evs, trace w' = trace w ++ evs /\
      Forall (fun p => length p = Z.to_nat sizeof_outbuf) (tx_attempts evs)).
Proof.
  intros Hbc. eapply ends_weaken; [apply sfputc_spec, Hbc|]. cbn beta.
  intros r w' (_ & Hob & _ & _ & evs & Htr & Hev).
  exists evs. split; [exact Htr|].
  destruct (outbuf_idx w + 1 =? sizeof_outbuf).
  - destruct Hev as (_ & k & ->). apply Forall_forall. intros p Hp.
    apply list_elem_of_In, repeat_spec in Hp. subst p.
    destruct Hbc as (_ & Hlo & _).
    rewrite length_take, Hob, length_insert, Hlo. lia.
  - subst evs. constructor.
Qed.

Lemma sfputc_all_spec fuel : forall cs w,
  between_calls w ->
  ends (sfputc_all hst fuel cs w) (fun r w' =>
    rx_side_kept w w' /\
    (exists evs, trace w' = trace w ++ evs /\
       Forall (fun p => length p = Z.to_nat sizeof_outbuf) (tx_attempts evs)) /\
    match r with
    | Some _ => between_calls w' /\
                tx_stream w' = tx_stream w ++ map to_uint8 cs /\
                outbuf_idx w'
                = (outbuf_idx w + Z.of_nat (length cs)) mod sizeof_outbuf
    | None => outbuf_idx w' = sizeof_outbuf /\
              exists n, tx_stream w' = tx_stream w ++ map to_uint8 (take n cs)
    end).
Proof.
  induction cs as [|c cs IH]; intros w Hbc.
  - cbn. split; [repeat split|]. split.
    + exists []. split; [symmetry; apply app_nil_r|constructor].
    + split; [exact Hbc|]. split; [symmetry; apply app_nil_r|].
      destruct Hbc as (_ & _ & _ & _ & _ & ? & ?).
      rewrite Z.add_0_r, Z.mod_small; [reflexivity|lia].
  - cbn [sfputc_all].
    eapply ends_bind;
      [apply ends_and; [apply sfputc_spec, Hbc|apply sfputc_packets, Hbc]| |];
      cbn beta.
    + intros [] w1 [(Hrx & _ & Hst & [Hbc1 Hnext] & _) (evs1 & Htr1 & Hall1)].
      eapply ends_weaken; [apply IH, Hbc1|]. cbn beta.
      intros r w' (Hrx' & (evs2 & Htr2 & Hall2) & Hr).
      split; [eapply rx_side_kept_trans; eassumption|]. split.
      * exists (evs1 ++ evs2). split.
        -- rewrite Htr2, Htr1, app_assoc. reflexivity.
        -- rewrite tx_attempts_app. apply Forall_app. auto.
      * destruct r as [[]|].
        -- destruct Hr as (Hbc' & Hst' & Hidx'). split; [exact Hbc'|]. split.
           ++ rewrite Hst', Hst, <- app_assoc. reflexivity.
           ++ rewrite Hidx', Hnext. cbn [length].
              rewrite Z.add_mod_idemp_l by (change sizeof_outbuf with 63; lia).
              f_equal. lia.
        -- destruct Hr as [Hfull [n Hst']]. split; [exact Hfull|].
           exists (S n). rewrite Hst', Hst, <- app_assoc. reflexivity.
    + intros w1 [(Hrx & _ & Hst & [_ Hfull] & _) Hev].
      split; [exact Hrx|]. split; [exact Hev|]. split; [exact Hfull|].
      exists 1%nat. rewrite Hst. cbn. rewrite take_0. reflexivity.
Qed.

Lemma sfputc_all_returns :
  infinitely_often (in_free hst) ->
  forall cs w,
    between_calls w ->
    exists F w', forall fuel, (F <= fuel)%nat ->
      sfputc_all hst fuel cs w = Done tt w'.
Proof.
  intros Hio cs. induction cs as [|c cs IH]; intros w Hbc.
  - exists O, w. reflexivity.
  - destruct (sfputc_returns c w Hio Hbc) as (F1 & w1 & H1).
    pose proof (sfputc_spec F1 c w Hbc) as Hs.
    rewrite (H1 F1 (Nat.le_refl F1)) in Hs. cbn in Hs.
    destruct Hs as (_ & _ & _ & [Hbc1 _] & _).
    destruct (IH w1 Hbc1) as (F2 & w2 & H2).
    exists (Nat.max F1 F2), w2. intros fuel Hle.
    cbn [sfputc_all]. unfold bind. rewrite H1 by lia. apply H2. lia.
Qed.

(** The design document's invariant holds however an operation ends, and
    between calls [outbuf] is never left full. *)
Lemma do_op_spec fuel o w :
  between_calls w ->
  ends (do_op hst fuel o w) (fun r w' =>
    stream_buffer_invariant w' /\ (r <> None -> between_calls w')).
Proof.
  assert (Hweak : forall w, between_calls w -> stream_buffer_invariant w).
  { intros w0 (_ & _ & ? & ? & ? & ? & ?). unfold stream_buffer_invariant.
    repeat split; auto; lia. }
  intros Hbc. destruct o as [|c|]; cbn [do_op].
  - eapply ends_bind; [apply sfgetc_spec, Hbc| |]; cbn beta.
    + intros b w' (Hbc' & _). cbn. auto.
    + intros w' (Hbc' & _). split; [auto|congruence].
  - eapply ends_weaken; [apply sfputc_spec, Hbc|]. cbn beta.
    intros r w' ((E1 & E2 & E3 & _) & _ & _ & Hr & _).
    destruct r.
    + destruct Hr as [Hbc' _]. auto.
    + destruct Hr as [_ Hfull]. split; [|congruence].
      destruct Hbc as (_ & _ & ? & ? & ? & ? & ?).
      unfold stream_buffer_invariant. rewrite E2, E3, Hfull.
      change sizeof_outbuf with 63. repeat split; auto; lia.
  - eapply ends_weaken; [apply sfsync_spec|]. cbn beta.
    intros r w' ((E1 & E2 & E3 & _) & Hob & Hoi & _).
    assert (Hbc' : between_calls w').
    { destruct Hbc as (? & ? & ? & ? & ? & ? & ?).
      unfold between_calls. rewrite E1, E2, E3, Hob, Hoi.
      change sizeof_outbuf with 63 in *.
      destruct r; repeat split; auto; lia. }
    auto.
Qed.

Lemma run_spec fuel : forall ops w,
  between_calls w ->
  ends (run hst fuel ops w) (fun _ w' => stream_buffer_invariant w').
Proof.
  induction ops as [|o ops IH]; intros w Hbc.
  - cbn. destruct Hbc as (_ & _ & ? & ? & ? & ? & ?).
    unfold stream_buffer_invariant. repeat split; auto; lia.
  - cbn [run]. eapply ends_bind; [apply do_op_spec, Hbc| |]; cbn beta.
    + intros [] w' [_ Hbc']. apply IH, Hbc'. congruence.
    + tauto.
Qed.

Lemma sfgetc_again fuel w :
  idx w = inbuf_len w ->
  sfgetc hst (S fuel) w = sfgetc hst fuel (received hst w).
Proof.
  intros Hex. unfold sfgetc. unfold bind at 1 5.
  rewrite sfgetc_loop_again by exact Hex. reflexivity.
Qed.

Lemma events_of_extension {A} (o : outcome A) w evs :
  ends o (fun _ w' => trace w' = trace w ++ evs) ->
  events_of w o = evs.
Proof.
  destruct o as [a w'|w'|]; cbn; [| |contradiction];
    intros ->; apply drop_app_length.
Qed.

Lemma tx_accepted_among_attempts (P : list Z -> Prop) tr :
  Forall P (tx_attempts tr) -> Forall P (tx_accepted tr).
Proof.
  induction tr as [|e tr IH]; [constructor|].
  destruct e as [| | a d [|] | | |]; cbn; intros H; auto;
    inversion H; subst; auto.
Qed.
End Loops.

Lemma initial_between_calls q : between_calls (initial_world q).
Proof.
  unfold between_calls, initial_world.
  cbn [inbuf outbuf idx inbuf_len outbuf_idx]. rewrite !repeat_length.
  change sizeof_inbuf with 64. change sizeof_outbuf with 63.
  repeat split; lia.
Qed.

Lemma initial_rx_pending q : rx_pending (initial_world q) = concat q.
Proof. reflexivity. Qed.

Lemma initial_tx_stream q : tx_stream (initial_world q) = [].
Proof. reflexivity. Qed.

Lemma ready_host_fair :
  infinitely_often (in_free ready_host) /\
  infinitely_often (out_arrived ready_host).
Proof. split; intros n; exists n; split; auto. Qed.

(** The design document's scenarios 2 and 3 on a host that is always
    ready: the 63rd [sfputc] flushes one 63-byte packet; [sfsync] after one
    byte sends it and returns. *)
Example sfputc_63rd_call_flushes :
  exists w,
    sfputc_all ready_host 0 (repeat 0x41 63) (initial_world []) = Done tt w /\
    trace w = [ev_ep_write USB_CDCACM_DATA_IN_ENDPOINT_ADDRESS (repeat 0x41 63) true] /\
    outbuf_idx w = 0.
Proof. eexists. split; [vm_compute; reflexivity|]. split; reflexivity. Qed.

Example sfsync_one_byte_returns :
  exists w,
    (sfputc ready_host 0 0x41 >> sfsync ready_host 0) (initial_world []) = Done tt w /\
    trace w = [ev_ep_write USB_CDCACM_DATA_IN_ENDPOINT_ADDRESS [0x41] true] /\
    outbuf_idx w = 0.
Proof. eexists. split; [vm_compute; reflexivity|]. split; reflexivity. Qed.

Example sfputc_wraps_int :
  exists w,
    sfputc ready_host 0 (-1) (initial_world []) = Done tt w /\
    outbuf w !! 0%nat = Some 255.
Proof. eexists. split; [vm_compute; reflexivity|]. reflexivity. Qed.

(** ** The stream transport: properties of the design document *)

(** C9. From power-on, after any sequence of [sfgetc], [sfputc] and [sfsync]
    calls, whether the last one returned or is still polling, the read
    cursor is at most the valid length, which is at most 64, and the write
    cursor is at most 63; no call indexes a buffer out of bounds. *)
Theorem stream_buffer_invariant_holds :
  forall (hst : host) (fuel : nat) (ops : list stream_op) (q : list (list Z)),
    ends (run hst fuel ops (initial_world q)) (fun _ w =>
      0 <= idx w /\ idx w <= inbuf_len w /\ inbuf_len w <= 64 /\
      0 <= outbuf_idx w /\ outbuf_idx w <= 63).
Proof.
  intros hst fuel ops q.
  eapply ends_weaken; [apply run_spec, initial_between_calls|].
  intros r w H. exact H.
Qed.

(** C2, as the code has it.  Called with nothing buffered, [sfsync] first
    hands a zero-length packet to the bulk-IN endpoint, and then never
    returns, whatever fuel it is given and whether or not the driver takes
    the packet: an accepted zero-length packet is reported as 0, which the
    loop reads as a failure. *)
Theorem sfsync_empty_never_returns :
  forall (hst : host) (fuel : nat) (w : world),
    outbuf_idx w = 0 ->
    exists w' evs,
      sfsync hst fuel w = Spin w' /\
      trace w' = trace w
                 ++ ev_ep_write USB_CDCACM_DATA_IN_ENDPOINT_ADDRESS []
                                (in_free hst (writes w)) :: evs /\
      Forall (fun p => p = []) (tx_attempts evs) /\
      outbuf_idx w' = 0.
Proof.
  intros hst fuel w Hz.
  pose proof (sfsync_spec hst fuel w) as H.
  assert (Hpk : tx_packet w = []).
  { unfold tx_packet. rewrite Hz. reflexivity. }
  destruct (sfsync hst fuel w) as [[] w'|w'|]; cbn in H.
  - destruct H as (_ & _ & _ & Hnz & _). exfalso. apply Hnz; [congruence|].
    rewrite Hz. reflexivity.
  - destruct H as (_ & _ & Hoi & _ & evs & Htr & [evs' ->] & [k Hk] & _).
    rewrite Hpk in *. exists w', evs'. split; [reflexivity|].
    split; [exact Htr|]. split; [|congruence].
    change (tx_attempts (ev_ep_write USB_CDCACM_DATA_IN_ENDPOINT_ADDRESS []
                                     (in_free hst (writes w)) :: evs'))
      with ([] :: tx_attempts evs') in Hk.
    cbn [repeat] in Hk. injection Hk as Hk. rewrite Hk.
    apply Forall_forall. intros p Hp.
    apply list_elem_of_In, repeat_spec in Hp. exact Hp.
  - contradiction.
Qed.

Lemma sfsync_empty_never_returns_witness :
  outbuf_idx (initial_world []) = 0 /\
  exists w' evs,
    sfsync ready_host 5 (initial_world []) = Spin w' /\
    trace w' = trace (initial_world [])
               ++ ev_ep_write USB_CDCACM_DATA_IN_ENDPOINT_ADDRESS [] true :: evs /\
    Forall (fun p => p = []) (tx_attempts evs) /\
    outbuf_idx w' = 0.
Proof.
  split; [reflexivity|].
  apply (sfsync_empty_never_returns ready_host 5 (initial_world [])).
  reflexivity.
Defined.

Lemma to_uint8_low_bits c : to_uint8 c = Z.land c 255.
Proof. unfold to_uint8. change 255 with (Z.ones 8). rewrite Z.land_ones by lia. reflexivity. Qed.

(** C10. Whatever [int] is passed to [sfputc], the cell it writes holds the
    argument modulo 256 (its low 8 bits), and the bytes the driver has
    accepted followed by those still in [outbuf] are the arguments of all
    calls so far, each modulo 256, in order; this is so too when a call is
    left polling in its flush. *)
Theorem sfputc_keeps_low_byte :
  forall (hst : host) (fuel : nat) (cs : list Z) (c : Z) (q : list (list Z)),
    ends (sfputc_all hst fuel cs (initial_world q)) (fun r w =>
      match r with
      | Some _ =>
          tx_stream w = map (fun x => x mod 256) cs /\
          ends (sfputc hst fuel c w) (fun _ w' =>
            outbuf w' !! Z.to_nat (outbuf_idx w) = Some (c mod 256) /\
            c mod 256 = Z.land c 255 /\
            tx_stream w' = map (fun x => x mod 256) (cs ++ [c]))
      | None =>
          exists n, tx_stream w = map (fun x => x mod 256) (take n cs)
      end).
Proof.
  intros hst fuel cs c q.
  eapply ends_weaken; [apply sfputc_all_spec, initial_between_calls|].
  cbn beta. intros r w (_ & _ & Hr).
  destruct r as [[]|].
  - destruct Hr as (Hbc & Hst & _). rewrite initial_tx_stream in Hst.
    split; [exact Hst|].
    eapply ends_weaken; [apply sfputc_spec, Hbc|]. cbn beta.
    intros r' w' (_ & Hob & Hst' & _).
    split; [|split].
    + rewrite Hob. apply list_lookup_insert_eq.
      destruct Hbc as (_ & Hlo & _ & _ & _ & ? & ?). rewrite Hlo.
      change sizeof_outbuf with 63 in *. lia.
    + apply to_uint8_low_bits.
    + rewrite Hst', Hst, map_app. reflexivity.
  - destruct Hr as (_ & n & Hst). exists n. exact Hst.
Qed.

(** C4. From power-on, over any sequence of [sfputc] calls: every packet
    handed to the bulk-IN endpoint is 63 bytes long, one less than the
    endpoint's packet size; the write cursor is the number of bytes given
    so far modulo 63; and the next call hands a packet to the endpoint
    exactly when its byte brings the unflushed count to 63. *)
Theorem sfputc_framing :
  forall (hst : host) (fuel : nat) (cs : list Z) (c : Z) (q : list (list Z)),
    ends (sfputc_all hst fuel cs (initial_world q)) (fun r w =>
      Forall (fun p => length p = 63%nat /\
                       Z.of_nat (length p) < USB_CDCACM_PACKET_SIZE)
             (tx_attempts (trace w)) /\
      (r <> None ->
       outbuf_idx w = Z.of_nat (length cs) mod 63 /\
       (tx_attempts (events_of w (sfputc hst fuel c w)) <> [] <->
        Z.of_nat (length cs) mod 63 + 1 = 63))).
Proof.
  intros hst fuel cs c q.
  eapply ends_weaken; [apply sfputc_all_spec, initial_between_calls|].
  cbn beta. intros r w (_ & (evs & Htr & Hall) & Hr). split.
  - rewrite Htr. cbn [trace initial_world app].
    eapply Forall_impl; [exact Hall|]. cbn beta. intros p ->.
    change (Z.to_nat sizeof_outbuf) with 63%nat.
    change USB_CDCACM_PACKET_SIZE with 64. split; [reflexivity|lia].
  - intros Hsome. destruct r as [[]|]; [|congruence].
    destruct Hr as (Hbc & _ & Hidx).
    change sizeof_outbuf with 63 in Hidx.
    change (outbuf_idx (initial_world q)) with 0 in Hidx.
    rewrite Z.add_0_l in Hidx.
    split; [exact Hidx|]. rewrite <- Hidx.
    pose proof (sfputc_spec hst fuel c w Hbc) as Hs.
    assert (Hev : exists evs',
              events_of w (sfputc hst fuel c w) = evs' /\
              if outbuf_idx w + 1 =? sizeof_outbuf
              then exists e evs'', evs' = ev_ep_write USB_CDCACM_DATA_IN_ENDPOINT_ADDRESS
                                                     e (in_free hst (writes w)) :: evs''
              else evs' = []).
    { destruct (sfputc hst fuel c w) as [a w'|w'|]; cbn in Hs; [| |contradiction];
        destruct Hs as (_ & _ & _ & _ & evs' & Htr' & Hif);
        exists evs'; (split; [cbn; rewrite Htr'; apply drop_app_length|]);
        destruct (outbuf_idx w + 1 =? sizeof_outbuf); auto;
        destruct Hif as ([evs'' ->] & _); eauto. }
    destruct Hev as (evs' & -> & Hif).
    change sizeof_outbuf with 63 in Hif.
    destruct (outbuf_idx w + 1 =? 63) eqn:Hfull.
    + apply Z.eqb_eq in Hfull. destruct Hif as (e & evs'' & ->).
      split; [auto|discriminate].
    + apply Z.eqb_neq in Hfull. subst evs'. split; [intros H; exfalso; apply H; reflexivity|].
      intros H. contradiction.
Qed.

(** C3, as the code has it.  Neither [sfgetc] nor [sfputc] looks at the
    configured flag.  Whatever its value, [sfgetc] attempts an endpoint
    read exactly when its input buffer is exhausted, and [sfputc] attempts
    an endpoint write exactly when the byte it appends fills [outbuf]. *)
Theorem stream_io_ignores_configured_flag :
  forall (hst : host) (fuel : nat) (c : Z) (w : world),
    between_calls w ->
    (ep_io (events_of w (sfgetc hst (S fuel) w)) <> [] <->
     idx w = inbuf_len w) /\
    (ep_io (events_of w (sfputc hst fuel c w)) <> [] <->
     outbuf_idx w + 1 = sizeof_outbuf).
Proof.
  intros hst fuel c w Hbc. split.
  - destruct (Z.eq_dec (idx w) (inbuf_len w)) as [Hex|Hne].
    + split; [auto|]. intros _.
      rewrite sfgetc_again by exact Hex.
      pose proof (sfgetc_spec hst fuel (received hst w)
                    (received_between_calls hst w Hbc)) as Hs.
      assert (Hev : exists evs,
                events_of w (sfgetc hst fuel (received hst w))
                = poll_events hst (polls w)
                  ++ ev_ep_read USB_CDCACM_DATA_OUT_ENDPOINT_ADDRESS (rx_next hst w)
                  :: evs).
      { destruct (sfgetc hst fuel (received hst w)) as [a w'|w'|];
          cbn in Hs; [| |contradiction];
          destruct Hs as (_ & _ & [evs Htr] & _); exists evs; cbn [events_of];
          rewrite Htr; cbn [received trace];
          rewrite <- !app_assoc, drop_app_length; reflexivity. }
      destruct Hev as [evs ->]. rewrite ep_io_app.
      destruct (poll_events_quiet hst (polls w)) as (_ & _ & ->).
      discriminate.
    + split; [|contradiction]. intros H. exfalso. apply H.
      unfold sfgetc. unfold bind at 1.
      rewrite sfgetc_loop_ready by exact Hne.
      destruct (sfgetc_take w Hbc Hne) as (b & _ & -> & _).
      cbn. rewrite drop_all. reflexivity.
  - pose proof (sfputc_spec hst fuel c w Hbc) as Hs.
    destruct (sfputc hst fuel c w) as [a w'|w'|]; cbn in Hs; [| |contradiction];
      destruct Hs as (_ & _ & _ & _ & evs & Htr & Hif);
      cbn [events_of]; rewrite Htr, drop_app_length;
      (destruct (outbuf_idx w + 1 =? sizeof_outbuf) eqn:Hfull;
       [apply Z.eqb_eq in Hfull; destruct Hif as ([evs' ->] & _);
        split; [auto|discriminate]
       |apply Z.eqb_neq in Hfull; subst evs;
        split; [intros H; exfalso; apply H; reflexivity|contradiction]]).
Qed.

Lemma stream_io_ignores_configured_flag_witness :
  is_usb_device_configured (initial_world []) = false /\
  between_calls (initial_world []) /\
  (ep_io (events_of (initial_world [])
                    (sfgetc ready_host 1 (initial_world []))) <> [] <->
   idx (initial_world []) = inbuf_len (initial_world [])) /\
  (ep_io (events_of (initial_world [])
                    (sfputc ready_host 0 65 (initial_world []))) <> [] <->
   outbuf_idx (initial_world []) + 1 = sizeof_outbuf).
Proof.
  split; [reflexivity|].
  assert (H : between_calls (initial_world [])).
  { unfold between_calls. vm_compute. repeat split; discriminate. }
  split; [exact H|].
  exact (stream_io_ignores_configured_flag ready_host 0 65 (initial_world []) H).
Defined.

(** C3 fails on the code: at power-on, with the flag false, [sfgetc] reads
    the bulk-OUT endpoint; and after 62 buffered bytes, with the flag still
    false, the next [sfputc] writes to the bulk-IN endpoint. *)
Lemma stream_io_while_unconfigured :
  (exists w',
     is_usb_device_configured (initial_world [[0x61]]) = false /\
     sfgetc ready_host 1 (initial_world [[0x61]]) = Done 0x61 w' /\
     is_usb_device_configured w' = false /\
     ep_io (trace w') = [ev_ep_read USB_CDCACM_DATA_OUT_ENDPOINT_ADDRESS [0x61]]) /\
  (exists w62 w',
     sfputc_all ready_host 0 (repeat 0x41 62) (initial_world []) = Done tt w62 /\
     is_usb_device_configured w62 = false /\
     ep_io (trace w62) = [] /\
     sfputc ready_host 0 0x42 w62 = Done tt w' /\
     is_usb_device_configured w' = false /\
     ep_io (trace w') = [ev_ep_write USB_CDCACM_DATA_IN_ENDPOINT_ADDRESS
                                     (repeat 0x41 62 ++ [0x42]) true]).
Proof.
  split.
  - eexists. split; [reflexivity|]. split; [vm_compute; reflexivity|].
    split; reflexivity.
  - eexists. eexists. split; [vm_compute; reflexivity|].
    split; [reflexivity|]. split; [reflexivity|].
    split; [vm_compute; reflexivity|]. split; reflexivity.
Qed.

Lemma map_to_uint8_bytes cs :
  Forall (fun c => 0 <= c < 256) cs -> map to_uint8 cs = cs.
Proof.
  induction 1 as [|c cs Hc _ IH]; [reflexivity|].
  cbn [map]. rewrite IH. unfold to_uint8. rewrite Z.mod_small by exact Hc.
  reflexivity.
Qed.

(** What the receive side gets when a host queues the packets [ps] for
    bulk-OUT. *)
Lemma receive_side_in_order (rx : host) (ps : list (list Z)) :
  infinitely_often (out_arrived rx) ->
  packets_fit ps ->
  exists G wr, forall fuel, (G <= fuel)%nat ->
    sfgetc_n rx fuel (length (concat ps)) (initial_world ps)
    = Done (concat ps) wr.
Proof.
  intros Hio Hfit.
  destruct (sfgetc_n_returns rx Hio (length (concat ps)) (initial_world ps))
    as (G & wr & HG & _).
  - apply initial_between_calls.
  - exact Hfit.
  - rewrite initial_rx_pending. lia.
  - exists G, wr. intros fuel Hle. rewrite (HG fuel Hle), initial_rx_pending.
    rewrite take_ge by lia. reflexivity.
Qed.

(** What the send side has handed over once [sfputc] has been called on
    every byte and [sfsync] after them: the accepted packets, end to end,
    are the bytes; none is longer than 63.  This holds whether [sfsync]
    returns or not. *)
Lemma send_side_in_order (tx : host) (cs : list Z) (q : list (list Z)) :
  infinitely_often (in_free tx) ->
  exists F, forall fuel, (F <= fuel)%nat ->
    ends ((sfputc_all tx fuel cs >> sfsync tx fuel) (initial_world q))
         (fun _ ws =>
            concat (tx_accepted (trace ws)) = map to_uint8 cs /\
            packets_fit (tx_accepted (trace ws))).
Proof.
  intros Hio.
  destruct (sfputc_all_returns tx Hio cs (initial_world q)
              (initial_between_calls q)) as (F1 & w1 & H1).
  pose proof (sfputc_all_spec tx F1 cs (initial_world q)
                (initial_between_calls q)) as Hs1.
  rewrite (H1 F1 (Nat.le_refl F1)) in Hs1. cbn [ends] in Hs1.
  destruct Hs1 as (_ & (evs1 & Htr1 & Hall1) & Hbc1 & Hst1 & _).
  rewrite initial_tx_stream in Hst1. cbn [app] in Hst1.
  cbn [trace initial_world app] in Htr1.
  assert (Hidx1 : 0 <= outbuf_idx w1 < 63).
  { destruct Hbc1 as (_ & _ & _ & _ & _ & ? & ?). change sizeof_outbuf with 63 in *. lia. }
  assert (Hlen1 : length (outbuf w1) = 63%nat) by apply Hbc1.
  assert (Hsync : exists F2, forall fuel, (F2 <= fuel)%nat ->
            ends (sfsync tx fuel w1) (fun _ ws =>
              outbuf_idx ws = 0 /\ tx_stream ws = tx_stream w1 /\
              exists evs2 k, trace ws = trace w1 ++ evs2 /\
                             tx_attempts evs2 = repeat (tx_packet w1) k)).
  { destruct (Z.eq_dec (outbuf_idx w1) 0) as [Hz|Hnz].
    - exists O. intros fuel _.
      eapply ends_weaken;
        [apply ends_and; [apply sfsync_spec|apply sfsync_stream; lia]|].
      cbn beta. intros r ws [(_ & _ & Hoi & _ & evs & Htr & _ & [k Hk] & _) Hst].
      split; [destruct r; congruence|]. split; [exact Hst|]. eauto.
    - destruct (sfsync_returns tx w1 Hio) as (F2 & w2 & H2).
      { rewrite Z.mod_small by lia. exact Hnz. }
      exists F2. intros fuel Hle.
      pose proof (ends_and _ _ _ (sfsync_spec tx fuel w1)
                    (sfsync_stream tx fuel w1 ltac:(lia))) as Hs.
      rewrite (H2 fuel Hle) in *. cbn [ends] in *.
      destruct Hs as [(_ & _ & Hoi & _ & evs & Htr & _ & [k Hk] & _) Hst].
      split; [exact Hoi|]. split; [exact Hst|]. eauto. }
  destruct Hsync as (F2 & H2).
  exists (Nat.max F1 F2). intros fuel Hle.
  unfold bind. rewrite H1 by lia.
  eapply ends_weaken; [apply H2; lia|]. cbn beta.
  intros _ ws (Hoi & Hst & evs2 & k & Htr2 & Hk). split.
  - rewrite <- Hst1, <- Hst. unfold tx_stream. rewrite Hoi.
    change (Z.to_nat 0) with O. rewrite take_0, app_nil_r. reflexivity.
  - apply tx_accepted_among_attempts.
    rewrite Htr2, Htr1, tx_attempts_app, Hk. apply Forall_app. split.
    + eapply Forall_impl; [exact Hall1|]. cbn beta. intros p ->.
      change (Z.to_nat sizeof_outbuf) with 63%nat.
      change (Z.to_nat USB_CDCACM_PACKET_SIZE) with 64%nat. lia.
    + apply Forall_forall. intros p Hp.
      apply list_elem_of_In, repeat_spec in Hp. subst p.
      unfold tx_packet. rewrite length_take.
      change (Z.to_nat USB_CDCACM_PACKET_SIZE) with 64%nat. lia.
Qed.

(** C6. Bytes written with [sfputc] and followed by [sfsync], all accepted
    in time by a host that keeps draining bulk-IN, come out of successive
    [sfgetc] calls on a receive side that is fed the accepted packets, equal
    to the bytes written and in the same order; where the packet boundaries
    fall does not matter. *)
Theorem stream_order_roundtrip :
  forall (tx rx : host) (cs : list Z) (q : list (list Z)),
    Forall (fun c => 0 <= c < 256) cs ->
    infinitely_often (in_free tx) ->
    infinitely_often (out_arrived rx) ->
    exists F, forall fuel, (F <= fuel)%nat ->
      ends ((sfputc_all tx fuel cs >> sfsync tx fuel) (initial_world q))
           (fun _ ws =>
              concat (tx_accepted (trace ws)) = cs /\
              exists G wr, forall fuel', (G <= fuel')%nat ->
                sfgetc_n rx fuel' (length cs)
                         (initial_world (tx_accepted (trace ws)))
                = Done cs wr).
Proof.
  intros tx rx cs q Hbytes Htx Hrx.
  destruct (send_side_in_order tx cs q Htx) as (F & HF).
  exists F. intros fuel Hle.
  eapply ends_weaken; [apply HF, Hle|]. cbn beta.
  intros _ ws (Hcat & Hfit). rewrite (map_to_uint8_bytes cs Hbytes) in Hcat.
  split; [exact Hcat|].
  destruct (receive_side_in_order rx (tx_accepted (trace ws)) Hrx Hfit)
    as (G & wr & HG).
  rewrite Hcat in HG. eauto.
Qed.

Lemma stream_order_roundtrip_witness :
  Forall (fun c => 0 <= c < 256) [0x68; 0x69] /\
  infinitely_often (in_free ready_host) /\
  infinitely_often (out_arrived ready_host) /\
  exists F, forall fuel, (F <= fuel)%nat ->
    ends ((sfputc_all ready_host fuel [0x68; 0x69] >> sfsync ready_host fuel)
            (initial_world []))
         (fun _ ws =>
            concat (tx_accepted (trace ws)) = [0x68; 0x69] /\
            exists G wr, forall fuel', (G <= fuel')%nat ->
              sfgetc_n ready_host fuel' (length [0x68; 0x69])
                       (initial_world (tx_accepted (trace ws)))
              = Done [0x68; 0x69] wr).
Proof.
  assert (Hb : Forall (fun c => 0 <= c < 256) [0x68; 0x69]).
  { repeat constructor; lia. }
  assert (Ht : infinitely_often (in_free ready_host)).
  { intros n. exists n. split; [lia|reflexivity]. }
  assert (Hr : infinitely_often (out_arrived ready_host)).
  { intros n. exists n. split; [lia|reflexivity]. }
  split; [exact Hb|]. split; [exact Ht|]. split; [exact Hr|].
  exact (stream_order_roundtrip ready_host ready_host [0x68; 0x69] [] Hb Ht Hr).
Defined.

(** C7. With the input buffer exhausted, each turn of [sfgetc] polls the
    device and attempts one receive on bulk-OUT, and goes round again
    exactly when nothing or an empty packet came.  After the host has sent
    the 3-byte packet 0x61 0x62 0x63, three calls return 0x61, 0x62, 0x63
    in that order; a fourth call does not return while no more data
    arrives, and returns the first byte of the next packet once it has. *)
Theorem sfgetc_three_byte_packet :
  forall (hst : host),
    infinitely_often (out_arrived hst) ->
    (forall fuel w,
       idx w = inbuf_len w ->
       sfgetc hst (S fuel) w = sfgetc hst fuel (received hst w) /\
       trace (received hst w)
       = trace w ++ poll_events hst (polls w)
                 ++ [ev_ep_read USB_CDCACM_DATA_OUT_ENDPOINT_ADDRESS
                                (rx_next hst w)] /\
       (idx (received hst w) = inbuf_len (received hst w) <->
        rx_next hst w = [])) /\
    (exists F w3,
       (forall fuel, (F <= fuel)%nat ->
          sfgetc_n hst fuel 3 (initial_world [[0x61; 0x62; 0x63]])
          = Done [0x61; 0x62; 0x63] w3) /\
       (forall fuel, exists w', sfgetc hst fuel w3 = Spin w')) /\
    (forall b, exists G w4, forall fuel, (G <= fuel)%nat ->
       sfgetc_n hst fuel 4 (initial_world [[0x61; 0x62; 0x63]; [b]])
       = Done [0x61; 0x62; 0x63; b] w4).
Proof.
  intros hst Hio. split; [|split].
  - intros fuel w Hex. split; [apply sfgetc_again, Hex|].
    split; [reflexivity|].
    unfold received. cbn [idx inbuf_len].
    destruct (rx_next hst w) as [|x l]; cbn [length]; split;
      (reflexivity || discriminate || lia).
  - destruct (sfgetc_n_returns hst Hio 3 (initial_world [[0x61; 0x62; 0x63]]))
      as (F & w3 & HF & Hbc & Hfit & Hrest).
    + apply initial_between_calls.
    + repeat constructor; vm_compute; lia.
    + rewrite initial_rx_pending. cbn. lia.
    + exists F, w3. split; [exact HF|].
      intros fuel. apply sfgetc_blocks; assumption.
  - intros b.
    destruct (sfgetc_n_returns hst Hio 4 (initial_world [[0x61; 0x62; 0x63]; [b]]))
      as (G & w4 & HG & _).
    + apply initial_between_calls.
    + repeat constructor; vm_compute; lia.
    + rewrite initial_rx_pending. cbn. lia.
    + exists G, w4. exact HG.
Qed.

Lemma sfgetc_three_byte_packet_witness :
  infinitely_often (out_arrived ready_host) /\
  exists F w3,
    (forall fuel, (F <= fuel)%nat ->
       sfgetc_n ready_host fuel 3 (initial_world [[0x61; 0x62; 0x63]])
       = Done [0x61; 0x62; 0x63] w3) /\
    (forall fuel, exists w', sfgetc ready_host fuel w3 = Spin w').
Proof.
  assert (Hr : infinitely_often (out_arrived ready_host)).
  { intros n. exists n. split; [lia|reflexivity]. }
  split; [exact Hr|].
  exact (proj1 (proj2 (sfgetc_three_byte_packet ready_host Hr))).
Defined.

(** * Further properties of the code *)

(** ** A rule for relations that every step of the stream code respects *)

Section Steps.
Variable hst : host.
Variable R : world -> world -> Prop.
Hypothesis R_refl : forall w, R w w.
Hypothesis R_trans : forall w1 w2 w3, R w1 w2 -> R w2 w3 -> R w1 w3.
Hypothesis R_polled : forall w, R w (polled hst w).
Hypothesis R_attempted :
  forall w, length (outbuf w) = Z.to_nat sizeof_outbuf -> R w (attempted hst w).
Hypothesis R_received :
  forall w, length (inbuf w) = Z.to_nat sizeof_inbuf -> R w (received hst w).
Hypothesis R_set_idx : forall i w, R w (set_idx i w).
Hypothesis R_set_outbuf_idx : forall i w, R w (set_outbuf_idx i w).
Hypothesis R_appended : forall c w, R w (appended c w).

Lemma sfsync_loop_steps fuel : forall w,
  length (outbuf w) = Z.to_nat sizeof_outbuf ->
  ends (sfsync_loop hst fuel w) (fun _ w' => R w w').
Proof.
  induction fuel as [|fuel IH]; intros w Hlen;
    (destruct (in_free hst (writes w)) eqn:Hfree;
     [destruct (Z.eq_dec (outbuf_idx w mod 65536) 0) as [Hz|Hz]|]).
  all: try (rewrite sfsync_loop_out_of_fuel by auto; apply R_attempted, Hlen).
  all: try (rewrite sfsync_loop_accepted by auto; apply R_attempted, Hlen).
  all: rewrite sfsync_loop_again by auto;
    eapply ends_weaken; [apply IH; exact Hlen|]; cbn beta; intros _ w' H;
    eapply R_trans; [|exact H];
    eapply R_trans; [apply R_attempted, Hlen|apply R_polled].
Qed.

Lemma sfgetc_loop_steps fuel : forall w,
  between_calls w ->
  ends (sfgetc_loop hst fuel w) (fun _ w' => R w w').
Proof.
  induction fuel as [|fuel IH]; intros w Hbc;
    destruct (Z.eq_dec (idx w) (inbuf_len w)) as [Hex|Hne].
  - rewrite sfgetc_loop_out_of_fuel by exact Hex. apply R_refl.
  - rewrite sfgetc_loop_ready by exact Hne. apply R_refl.
  - rewrite sfgetc_loop_again by exact Hex.
    eapply ends_weaken; [apply IH, received_between_calls, Hbc|].
    cbn beta. intros _ w' H. eapply R_trans; [|exact H].
    apply R_received, Hbc.
  - rewrite sfgetc_loop_ready by exact Hne. apply R_refl.
Qed.

Lemma sfsync_steps fuel w :
  length (outbuf w) = Z.to_nat sizeof_outbuf ->
  ends (sfsync hst fuel w) (fun _ w' => R w w').
Proof.
  intros Hlen. unfold sfsync.
  eapply ends_bind; [apply sfsync_loop_steps, Hlen| |]; cbn beta.
  - intros [] w' H. cbn. eapply R_trans; [exact H|]. apply R_set_outbuf_idx.
  - auto.
Qed.

Lemma sfgetc_steps fuel w :
  between_calls w ->
  ends (sfgetc hst fuel w) (fun _ w' => R w w').
Proof.
  intros Hbc. unfold sfgetc.
  eapply ends_bind;
    [apply ends_and; [apply sfgetc_loop_steps, Hbc|apply sfgetc_loop_spec, Hbc]| |];
    cbn beta.
  - intros [] w1 [H (Hbc1 & _ & _ & _ & Hne)].
    destruct (sfgetc_take w1 Hbc1 Hne) as (b & _ & -> & _). cbn.
    eapply R_trans; [exact H|]. apply R_set_idx.
  - tauto.
Qed.

Lemma sfputc_steps fuel c w :
  between_calls w ->
  ends (sfputc hst fuel c w) (fun _ w' => R w w').
Proof.
  intros Hbc.
  assert (Hlo : length (outbuf w) = Z.to_nat sizeof_outbuf) by apply Hbc.
  assert (Hrange : 0 <= outbuf_idx w < Z.of_nat (length (outbuf w))).
  { destruct Hbc as (_ & _ & _ & _ & _ & ? & ?). rewrite Hlo.
    change sizeof_outbuf with 63 in *. lia. }
  rewrite sfputc_eq by exact Hrange.
  destruct (outbuf_idx w + 1 =? sizeof_outbuf).
  - eapply ends_weaken; [apply (sfsync_steps fuel (appended c w))|].
    + cbn. rewrite length_insert. exact Hlo.
    + cbn beta. intros _ w' H. eapply R_trans; [apply R_appended|exact H].
  - cbn. apply R_appended.
Qed.

Lemma do_op_steps fuel o w :
  between_calls w ->
  ends (do_op hst fuel o w) (fun _ w' => R w w').
Proof.
  intros Hbc. destruct o as [|c|]; cbn [do_op].
  - eapply ends_bind; [apply sfgetc_steps, Hbc| |]; cbn beta; auto.
  - apply sfputc_steps, Hbc.
  - apply sfsync_steps, Hbc.
Qed.

Lemma run_steps fuel : forall ops w,
  between_calls w ->
  ends (run hst fuel ops w) (fun _ w' => R w w').
Proof.
  induction ops as [|o ops IH]; intros w Hbc.
  - cbn. apply R_refl.
  - cbn [run].
    eapply ends_bind;
      [apply ends_and; [apply do_op_steps, Hbc|apply do_op_spec, Hbc]| |];
      cbn beta.
    + intros [] w1 [H [_ Hbc1]].
      eapply ends_weaken; [apply IH, Hbc1; congruence|]. cbn beta.
      intros _ w' H'. eapply R_trans; eassumption.
    + tauto.
Qed.
End Steps.

(** ** The configured flag *)

Lemma configured_by_poll_refl hst w : configured_by_poll hst w w.
Proof.
  split; [lia|]. split; [auto|].
  intros [H|(k & Hk & _)]; [exact H|lia].
Qed.

Lemma configured_by_poll_trans hst w1 w2 w3 :
  configured_by_poll hst w1 w2 -> configured_by_poll hst w2 w3 ->
  configured_by_poll hst w1 w3.
Proof.
  intros [Hp12 H12] [Hp23 H23]. split; [lia|]. split.
  - intros H3. apply H23 in H3. destruct H3 as [H2|(k & Hk & Hs)].
    + apply H12 in H2. destruct H2 as [H1|(k & Hk & Hs)]; [auto|].
      right. exists k. split; [lia|exact Hs].
    + right. exists k. split; [lia|exact Hs].
  - intros [H1|(k & Hk & Hs)]; apply H23.
    + left. apply H12. auto.
    + destruct (le_lt_dec (polls w2) k) as [Hge|Hlt].
      * right. exists k. split; [lia|exact Hs].
      * left. apply H12. right. exists k. split; [lia|exact Hs].
Qed.

Lemma configured_by_poll_same hst w w' :
  polls w' = polls w ->
  is_usb_device_configured w' = is_usb_device_configured w ->
  configured_by_poll hst w w'.
Proof.
  intros Hp Hf. unfold configured_by_poll. rewrite Hp, Hf.
  apply configured_by_poll_refl.
Qed.

Lemma configured_by_poll_polled hst w : configured_by_poll hst w (polled hst w).
Proof.
  unfold configured_by_poll, polled.
  cbn [polls is_usb_device_configured]. split; [lia|].
  destruct (set_configuration hst (polls w)) as [v|] eqn:Hs; split.
  - intros _. right. exists (polls w). split; [lia|]. congruence.
  - reflexivity.
  - auto.
  - intros [H|(k & Hk & Hne)]; [exact H|].
    replace k with (polls w) in Hne by lia. congruence.
Qed.

Lemma configured_by_poll_received hst w : configured_by_poll hst w (received hst w).
Proof.
  destruct (configured_by_poll_polled hst w) as [Hp Hf].
  split; [cbn; lia|exact Hf].
Qed.

(** X4. The flag is written only by the set-configuration callback, and only
    with [true]: across any sequence of stream calls it ends up true
    exactly when it was true before or a poll in between served a
    SET_CONFIGURATION request.  So it is never reset, and it stays false
    while the host has not configured the device. *)
Theorem configured_only_by_set_configuration :
  forall (hst : host) (fuel : nat) (ops : list stream_op) (w : world),
    between_calls w ->
    ends (run hst fuel ops w) (fun _ w' =>
      configured_by_poll hst w w' /\
      (is_usb_device_configured w = true ->
       is_usb_device_configured w' = true) /\
      ((forall k, set_configuration hst k = None) ->
       is_usb_device_configured w' = is_usb_device_configured w)).
Proof.
  intros hst fuel ops w Hbc.
  eapply ends_weaken.
  - apply (run_steps hst (configured_by_poll hst)).
    + apply configured_by_poll_refl.
    + apply configured_by_poll_trans.
    + apply configured_by_poll_polled.
    + intros w0 _. apply configured_by_poll_same; reflexivity.
    + intros w0 _. apply configured_by_poll_received.
    + intros i w0. apply configured_by_poll_same; reflexivity.
    + intros i w0. apply configured_by_poll_same; reflexivity.
    + intros c w0. apply configured_by_poll_same; reflexivity.
    + exact Hbc.
  - cbn beta. intros _ w' H. split; [exact H|].
    destruct H as [_ H]. split.
    + intros Ht. apply H. auto.
    + intros Hnone.
      destruct (is_usb_device_configured w') eqn:E'.
      * destruct (proj1 H eq_refl) as [Ht|(k & _ & Hne)]; [auto|].
        exfalso. apply Hne, Hnone.
      * destruct (is_usb_device_configured w) eqn:E; [|reflexivity].
        apply (proj2 H). left. reflexivity.
Qed.

Lemma configured_only_by_set_configuration_witness :
  between_calls (initial_world []) /\
  ends (run ready_host 0 [op_putc 65; op_sync] (initial_world [])) (fun _ w' =>
    configured_by_poll ready_host (initial_world []) w' /\
    (is_usb_device_configured (initial_world []) = true ->
     is_usb_device_configured w' = true) /\
    ((forall k, set_configuration ready_host k = None) ->
     is_usb_device_configured w' = is_usb_device_configured (initial_world []))).
Proof.
  assert (H : between_calls (initial_world [])).
  { unfold between_calls. vm_compute. repeat split; discriminate. }
  split; [exact H|].
  exact (configured_only_by_set_configuration
           ready_host 0 [op_putc 65; op_sync] (initial_world []) H).
Defined.

(** ** Which endpoints the stream code touches *)

Lemma poll_events_well_addressed hst n :
  Forall well_addressed (poll_events hst n).
Proof.
  unfold poll_events. constructor; [exact I|].
  destruct (set_configuration hst n); [|constructor].
  repeat constructor; cbn; tauto.
Qed.

(** X5. Every driver call made by any sequence of stream calls is one the
    descriptor set accounts for: receives go to the declared bulk-OUT
    endpoint and bring at most 64 bytes, sends go to the declared bulk-IN
    endpoint and carry fewer than 64, and only declared endpoints are set
    up. *)
Theorem stream_calls_well_addressed :
  forall (hst : host) (fuel : nat) (ops : list stream_op) (w : world),
    between_calls w ->
    ends (run hst fuel ops w) (fun _ w' =>
      exists evs, trace w' = trace w ++ evs /\ Forall well_addressed evs).
Proof.
  intros hst fuel ops w Hbc.
  apply (run_steps hst (fun w w' =>
           exists evs, trace w' = trace w ++ evs /\ Forall well_addressed evs)).
  - intros w0. exists []. split; [symmetry; apply app_nil_r|constructor].
  - intros w1 w2 w3 (e1 & H1 & F1) (e2 & H2 & F2). exists (e1 ++ e2).
    split; [rewrite H2, H1, app_assoc; reflexivity|].
    apply Forall_app. auto.
  - intros w0. eexists. split; [reflexivity|]. apply poll_events_well_addressed.
  - intros w0 Hlen. eexists. split; [reflexivity|].
    constructor; [|constructor]. cbn [well_addressed].
    split; [cbn; tauto|]. split; [reflexivity|].
    unfold tx_packet. rewrite length_take, Hlen.
    change (Z.to_nat sizeof_outbuf) with 63%nat.
    change USB_CDCACM_PACKET_SIZE with 64. lia.
  - intros w0 _. eexists. split; [reflexivity|].
    apply Forall_app. split; [apply poll_events_well_addressed|].
    constructor; [|constructor]. cbn [well_addressed].
    split; [cbn; tauto|]. split; [reflexivity|].
    pose proof (rx_next_short hst w0) as Hs.
    change (Z.to_nat sizeof_inbuf) with 64%nat in Hs.
    change USB_CDCACM_PACKET_SIZE with 64. lia.
  - intros i w0. exists []. split; [symmetry; apply app_nil_r|constructor].
  - intros i w0. exists []. split; [symmetry; apply app_nil_r|constructor].
  - intros c w0. exists []. split; [symmetry; apply app_nil_r|constructor].
  - exact Hbc.
Qed.

Lemma stream_calls_well_addressed_witness :
  between_calls (initial_world [[1; 2]]) /\
  ends (run ready_host 1 [op_getc; op_putc 65; op_sync] (initial_world [[1; 2]]))
       (fun _ w' =>
          exists evs, trace w' = trace (initial_world [[1; 2]]) ++ evs /\
                      Forall well_addressed evs).
Proof.
  assert (H : between_calls (initial_world [[1; 2]])).
  { unfold between_calls. vm_compute. repeat split; discriminate. }
  split; [exact H|].
  exact (stream_calls_well_addressed
           ready_host 1 [op_getc; op_putc 65; op_sync] (initial_world [[1; 2]]) H).
Defined.

(** ** What [sfgetc] returns *)

Lemma bytes_only_received hst w :
  bytes_only w -> bytes_only (received hst w).
Proof.
  intros [Hin Hq]. unfold bytes_only, received, rx_next, rx_rest.
  cbn [inbuf host_out].
  destruct (out_arrived hst (reads w)).
  - destruct (host_out w) as [|p q].
    + split; [|constructor]. cbn. rewrite drop_0. exact Hin.
    + inversion Hq as [|? ? Hp Hq']; subst. split; [|exact Hq'].
      apply Forall_app. split.
      * apply Forall_take, Hp.
      * apply Forall_drop, Hin.
  - split; [|exact Hq]. cbn. rewrite drop_0. exact Hin.
Qed.

(** X6. [sfgetc] returns an [int] between 0 and 255, never a negative value:
    it has no way to report "no data" or an error other than not
    returning. *)
Theorem sfgetc_returns_a_byte :
  forall (hst : host) (fuel : nat) (w : world),
    between_calls w ->
    bytes_only w ->
    ends (sfgetc hst fuel w) (fun r w' =>
      bytes_only w' /\
      match r with
      | Some b => 0 <= b < 256
      | None => True
      end).
Proof.
  intros hst fuel w Hbc Hbytes. unfold sfgetc.
  eapply ends_bind;
    [apply ends_and;
     [apply (sfgetc_loop_steps hst (fun w w' => bytes_only w -> bytes_only w'))
     |apply sfgetc_loop_spec, Hbc]| |]; cbn beta.
  - auto.
  - auto.
  - intros w0 _. apply bytes_only_received.
  - exact Hbc.
  - intros [] w1 [H (Hbc1 & _ & _ & _ & Hne)].
    destruct (sfgetc_take w1 Hbc1 Hne) as (b & Hb & -> & _). cbn [ends].
    specialize (H Hbytes). split; [exact H|].
    destruct H as [Hin _].
    exact (proj1 (Forall_lookup _ _) Hin _ _ Hb).
  - intros w1 [H _]. auto.
Qed.

Lemma sfgetc_returns_a_byte_witness :
  between_calls (initial_world [[200; 7]]) /\
  bytes_only (initial_world [[200; 7]]) /\
  ends (sfgetc ready_host 1 (initial_world [[200; 7]])) (fun r w' =>
    bytes_only w' /\
    match r with
    | Some b => 0 <= b < 256
    | None => True
    end).
Proof.
  assert (H : between_calls (initial_world [[200; 7]])).
  { unfold between_calls. vm_compute. repeat split; discriminate. }
  assert (Hb : bytes_only (initial_world [[200; 7]])).
  { split.
    - apply Forall_forall. intros x Hx.
      apply list_elem_of_In, repeat_spec in Hx. subst x. unfold is_byte. lia.
    - repeat constructor; unfold is_byte; lia. }
  split; [exact H|]. split; [exact Hb|].
  exact (sfgetc_returns_a_byte ready_host 1 (initial_world [[200; 7]]) H Hb).
Defined.

(** X7. From any state between calls, [n] successive [sfgetc] calls return the
    next [n] bytes of the stream: first the unread bytes of [inbuf], then
    the host's packets end to end.  Packet boundaries do not show, and
    empty packets are skipped. *)
Theorem sfgetc_stream_in_order :
  forall (hst : host) (n : nat) (w : world),
    infinitely_often (out_arrived hst) ->
    between_calls w ->
    packets_fit (host_out w) ->
    (n <= length (rx_pending w))%nat ->
    exists F w',
      (forall fuel, (F <= fuel)%nat ->
         sfgetc_n hst fuel n w
         = Done (take n (drop (Z.to_nat (idx w))
                              (take (Z.to_nat (inbuf_len w)) (inbuf w))
                         ++ concat (host_out w))) w') /\
      rx_pending w' = drop n (rx_pending w) /\
      between_calls w'.
Proof.
  intros hst n w Hio Hbc Hfit Hn.
  destruct (sfgetc_n_returns hst Hio n w Hbc Hfit Hn)
    as (F & w' & HF & Hbc' & _ & Hrest).
  exists F, w'. auto.
Qed.

Lemma sfgetc_stream_in_order_witness :
  infinitely_often (out_arrived ready_host) /\
  between_calls (initial_world [[1; 2]; []; [3]]) /\
  packets_fit (host_out (initial_world [[1; 2]; []; [3]])) /\
  (3 <= length (rx_pending (initial_world [[1; 2]; []; [3]]%Z)))%nat /\
  exists F w',
    (forall fuel, (F <= fuel)%nat ->
       sfgetc_n ready_host fuel 3 (initial_world [[1; 2]; []; [3]])
       = Done [1; 2; 3] w') /\
    rx_pending w' = [] /\
    between_calls w'.
Proof.
  assert (Hr : infinitely_often (out_arrived ready_host)).
  { intros n. exists n. split; [lia|reflexivity]. }
  assert (H : between_calls (initial_world [[1; 2]; []; [3]])).
  { unfold between_calls. vm_compute. repeat split; discriminate. }
  assert (Hf : packets_fit (host_out (initial_world [[1; 2]; []; [3]]))).
  { repeat constructor; vm_compute; lia. }
  assert (Hn : (3 <= length (rx_pending (initial_world [[1; 2]; []; [3]]%Z)))%nat).
  { vm_compute. lia. }
  split; [exact Hr|]. split; [exact H|]. split; [exact Hf|]. split; [exact Hn|].
  exact (sfgetc_stream_in_order ready_host 3 (initial_world [[1; 2]; []; [3]])
           Hr H Hf Hn).
Defined.

(** ** What the stream calls leave alone *)

(** X8. [sfgetc] never touches the send side: [outbuf] and its cursor are as
    before and no packet is offered to the driver. *)
Theorem sfgetc_never_sends :
  forall (hst : host) (fuel : nat) (w : world),
    between_calls w ->
    ends (sfgetc hst fuel w) (fun _ w' =>
      outbuf w' = outbuf w /\ outbuf_idx w' = outbuf_idx w /\
      writes w' = writes w /\
      tx_attempts (trace w') = tx_attempts (trace w)).
Proof.
  intros hst fuel w Hbc.
  eapply ends_weaken; [apply sfgetc_spec, Hbc|]. cbn beta.
  intros r w' (_ & (H1 & H2 & H3 & H4 & _) & _). auto.
Qed.

Lemma sfgetc_never_sends_witness :
  between_calls (initial_world [[9]]) /\
  ends (sfgetc ready_host 1 (initial_world [[9]])) (fun _ w' =>
    outbuf w' = outbuf (initial_world [[9]]) /\
    outbuf_idx w' = outbuf_idx (initial_world [[9]]) /\
    writes w' = writes (initial_world [[9]]) /\
    tx_attempts (trace w') = tx_attempts (trace (initial_world [[9]]))).
Proof.
  assert (H : between_calls (initial_world [[9]])).
  { unfold between_calls. vm_compute. repeat split; discriminate. }
  split; [exact H|].
  exact (sfgetc_never_sends ready_host 1 (initial_world [[9]]) H).
Defined.

(** X9. [sfputc] and [sfsync] never touch the receive side: [inbuf], its
    cursor and valid length are as before, no receive is attempted and no
    packet is taken from the host. *)
Theorem sfputc_sfsync_never_receive :
  forall (hst : host) (fuel : nat) (c : Z) (w : world),
    between_calls w ->
    ends (sfputc hst fuel c w) (fun _ w' =>
      inbuf w' = inbuf w /\ idx w' = idx w /\ inbuf_len w' = inbuf_len w /\
      host_out w' = host_out w /\ reads w' = reads w) /\
    ends (sfsync hst fuel w) (fun _ w' =>
      inbuf w' = inbuf w /\ idx w' = idx w /\ inbuf_len w' = inbuf_len w /\
      host_out w' = host_out w /\ reads w' = reads w).
Proof.
  intros hst fuel c w Hbc. split.
  - eapply ends_weaken; [apply sfputc_spec, Hbc|]. cbn beta.
    intros r w' (H & _). exact H.
  - eapply ends_weaken; [apply sfsync_spec|]. cbn beta.
    intros r w' (H & _). exact H.
Qed.

Lemma sfputc_sfsync_never_receive_witness :
  between_calls (initial_world [[9]]) /\
  ends (sfputc ready_host 0 65 (initial_world [[9]])) (fun _ w' =>
    inbuf w' = inbuf (initial_world [[9]]) /\
    idx w' = idx (initial_world [[9]]) /\
    inbuf_len w' = inbuf_len (initial_world [[9]]) /\
    host_out w' = host_out (initial_world [[9]]) /\
    reads w' = reads (initial_world [[9]])).
Proof.
  assert (H : between_calls (initial_world [[9]])).
  { unfold between_calls. vm_compute. repeat split; discriminate. }
  split; [exact H|].
  exact (proj1 (sfputc_sfsync_never_receive ready_host 0 65 (initial_world [[9]]) H)).
Defined.

(** ** Flushing *)

Lemma single_copy (pkt : list Z) (acc : list (list Z)) :
  pkt <> [] ->
  Forall (fun p => p = pkt) acc ->
  concat acc = pkt ->
  acc = [pkt].
Proof.
  intros Hne Hall Hcat. destruct acc as [|a l].
  - cbn in Hcat. congruence.
  - apply Forall_cons in Hall. destruct Hall as [Ha Hl]. rewrite Ha in *.
    f_equal. cbn [concat] in Hcat. rewrite <- (app_nil_r pkt) in Hcat at 2.
    apply app_inv_head in Hcat.
    destruct l as [|b l']; [reflexivity|].
    apply Forall_cons in Hl. destruct Hl as [Hb _]. rewrite Hb in Hcat.
    cbn [concat] in Hcat.
    apply app_eq_nil in Hcat. destruct Hcat as [Hcat _]. contradiction.
Qed.

(** X10. With bytes pending and a host that keeps draining bulk-IN, [sfsync]
    returns; the driver has then accepted the pending bytes as one packet,
    exactly once, every attempt offered that same packet, the cursor is 0
    and the contents of [outbuf] are left in place. *)
Theorem sfsync_flushes_once :
  forall (hst : host) (w : world),
    infinitely_often (in_free hst) ->
    0 < outbuf_idx w <= Z.of_nat (length (outbuf w)) ->
    outbuf_idx w < 65536 ->
    exists F w' evs,
      (forall fuel, (F <= fuel)%nat -> sfsync hst fuel w = Done tt w') /\
      outbuf_idx w' = 0 /\
      outbuf w' = outbuf w /\
      trace w' = trace w ++ evs /\
      tx_accepted evs = [take (Z.to_nat (outbuf_idx w)) (outbuf w)] /\
      Forall (fun p => p = take (Z.to_nat (outbuf_idx w)) (outbuf w))
             (tx_attempts evs).
Proof.
  intros hst w Hio [Hpos Hle] Hsmall.
  assert (Hnz : outbuf_idx w mod 65536 <> 0).
  { rewrite Z.mod_small by lia. lia. }
  destruct (sfsync_returns hst w Hio Hnz) as (F & w' & HF).
  pose proof (sfsync_spec hst F w) as Hs.
  rewrite (HF F (Nat.le_refl F)) in Hs. cbn [ends] in Hs.
  destruct Hs as (_ & Hob & Hoi & _ & evs & Htr & _ & [k Hk] & Hcat).
  rewrite (tx_packet_small w) in Hk, Hcat by lia.
  assert (Hall : Forall (fun p => p = take (Z.to_nat (outbuf_idx w)) (outbuf w))
                        (tx_attempts evs)).
  { rewrite Hk. apply Forall_forall. intros p Hp.
    apply list_elem_of_In, repeat_spec in Hp. exact Hp. }
  exists F, w', evs. split; [exact HF|]. split; [exact Hoi|].
  split; [exact Hob|]. split; [exact Htr|]. split; [|exact Hall].
  apply single_copy.
  - intros E. apply (f_equal (@length Z)) in E.
    rewrite length_take in E. cbn in E. lia.
  - apply tx_accepted_among_attempts, Hall.
  - exact Hcat.
Qed.

Lemma sfsync_flushes_once_witness :
  infinitely_often (in_free ready_host) /\
  (exists F w' evs,
     (forall fuel, (F <= fuel)%nat ->
        sfsync ready_host fuel (appended 65 (initial_world [])) = Done tt w') /\
     outbuf_idx w' = 0 /\
     outbuf w' = outbuf (appended 65 (initial_world [])) /\
     trace w' = trace (appended 65 (initial_world [])) ++ evs /\
     tx_accepted evs = [[65]] /\
     Forall (fun p => p = [65]) (tx_attempts evs)).
Proof.
  assert (Ht : infinitely_often (in_free ready_host)).
  { intros n. exists n. split; [lia|reflexivity]. }
  split; [exact Ht|].
  apply (sfsync_flushes_once ready_host (appended 65 (initial_world [])) Ht).
  - vm_compute. split; [reflexivity|discriminate].
  - reflexivity.
Defined.

(** X11. [sfsync] with nothing pending hangs, so it hangs when it follows a
    [sfsync] that returned, and when it follows a run of [sfputc] calls
    whose number is a multiple of 63 (the last of them has flushed). *)
Theorem sfsync_with_nothing_pending_hangs :
  forall (hst : host) (fuel fuel' : nat) (cs : list Z) (q : list (list Z))
         (w : world),
    Z.of_nat (length cs) mod 63 = 0 ->
    ends (sfsync hst fuel w) (fun r w' =>
      r <> None -> exists w'', sfsync hst fuel' w' = Spin w'') /\
    ends (sfputc_all hst fuel cs (initial_world q)) (fun r w' =>
      r <> None -> exists w'', sfsync hst fuel' w' = Spin w'').
Proof.
  intros hst fuel fuel' cs q w Hmult.
  assert (Hspin : forall w0, outbuf_idx w0 = 0 ->
            exists w'', sfsync hst fuel' w0 = Spin w'').
  { intros w0 Hz.
    destruct (sfsync_loop_empty_spins hst fuel' w0) as [w'' Hw''].
    - rewrite Hz. reflexivity.
    - exists w''. unfold sfsync, bind. rewrite Hw''. reflexivity. }
  split.
  - eapply ends_weaken; [apply sfsync_spec|]. cbn beta.
    intros r w' (_ & _ & Hoi & _) Hr. apply Hspin.
    destruct r; [exact Hoi|congruence].
  - eapply ends_weaken; [apply sfputc_all_spec, initial_between_calls|].
    cbn beta. intros r w' (_ & _ & Hr) Hsome. apply Hspin.
    destruct r; [|congruence]. destruct Hr as (_ & _ & Hidx).
    rewrite Hidx. change (outbuf_idx (initial_world q)) with 0.
    change sizeof_outbuf with 63. rewrite Z.add_0_l. exact Hmult.
Qed.

Lemma sfsync_with_nothing_pending_hangs_witness :
  Z.of_nat (length (repeat 65 63)) mod 63 = 0 /\
  ends (sfputc_all ready_host 0 (repeat 65 63) (initial_world [])) (fun r w' =>
    r <> None -> exists w'', sfsync ready_host 4 w' = Spin w'').
Proof.
  assert (H : Z.of_nat (length (repeat 65 63)) mod 63 = 0) by reflexivity.
  split; [exact H|].
  exact (proj2 (sfsync_with_nothing_pending_hangs
                  ready_host 0 4 (repeat 65 63) [] (initial_world []) H)).
Defined.

Lemma split_at_end {A} (l1 l2 l : list A) :
  l1 ++ l2 = l ->
  l1 = take (length l - length l2) l /\ l2 = drop (length l - length l2) l.
Proof.
  intros <-. rewrite length_app.
  replace (length l1 + length l2 - length l2)%nat with (length l1) by lia.
  rewrite take_app_length, drop_app_length. auto.
Qed.

(** X12. [sfputc] hands over whole 63-byte blocks only: after [n] calls from
    power-on, with a host that keeps draining bulk-IN, the driver has
    accepted exactly the first [n - n mod 63] bytes, and the last
    [n mod 63] wait in [outbuf] until [sfsync] or further calls. *)
Theorem sfputc_holds_back_partial_packet :
  forall (hst : host) (cs : list Z) (q : list (list Z)),
    infinitely_often (in_free hst) ->
    exists F w,
      (forall fuel, (F <= fuel)%nat ->
         sfputc_all hst fuel cs (initial_world q) = Done tt w) /\
      outbuf_idx w = Z.of_nat (length cs mod 63) /\
      concat (tx_accepted (trace w))
      = take (length cs - length cs mod 63) (map to_uint8 cs) /\
      take (length cs mod 63) (outbuf w)
      = drop (length cs - length cs mod 63) (map to_uint8 cs).
Proof.
  intros hst cs q Hio.
  destruct (sfputc_all_returns hst Hio cs (initial_world q)
              (initial_between_calls q)) as (F & w & HF).
  pose proof (sfputc_all_spec hst F cs (initial_world q)
                (initial_between_calls q)) as Hs.
  rewrite (HF F (Nat.le_refl F)) in Hs. cbn [ends] in Hs.
  destruct Hs as (_ & _ & Hbc & Hst & Hidx).
  rewrite initial_tx_stream in Hst. cbn [app] in Hst.
  change (outbuf_idx (initial_world q)) with 0 in Hidx.
  change sizeof_outbuf with 63 in Hidx. rewrite Z.add_0_l in Hidx.
  assert (Hidx' : outbuf_idx w = Z.of_nat (length cs mod 63)).
  { rewrite Hidx. rewrite Nat2Z.inj_mod. reflexivity. }
  exists F, w. split; [exact HF|]. split; [exact Hidx'|].
  unfold tx_stream in Hst. rewrite Hidx', Nat2Z.id in Hst.
  apply split_at_end in Hst. rewrite length_map in Hst.
  assert (Hlen : length (take (length cs mod 63) (outbuf w))
                 = (length cs mod 63)%nat).
  { rewrite length_take. destruct Hbc as (_ & Hlo & _). rewrite Hlo.
    change (Z.to_nat sizeof_outbuf) with 63%nat.
    pose proof (Nat.mod_upper_bound (length cs) 63). lia. }
  rewrite Hlen in Hst. exact Hst.
Qed.

Lemma sfputc_holds_back_partial_packet_witness :
  infinitely_often (in_free ready_host) /\
  exists F w,
    (forall fuel, (F <= fuel)%nat ->
       sfputc_all ready_host fuel (repeat 65 64) (initial_world []) = Done tt w) /\
    outbuf_idx w = Z.of_nat (length (repeat 65 64) mod 63) /\
    concat (tx_accepted (trace w))
    = take (length (repeat 65 64) - length (repeat 65 64) mod 63)
           (map to_uint8 (repeat 65 64)) /\
    take (length (repeat 65 64) mod 63) (outbuf w)
    = drop (length (repeat 65 64) - length (repeat 65 64) mod 63)
           (map to_uint8 (repeat 65 64)).
Proof.
  assert (Ht : infinitely_often (in_free ready_host)).
  { intros n. exists n. split; [lia|reflexivity]. }
  split; [exact Ht|].
  exact (sfputc_holds_back_partial_packet ready_host (repeat 65 64) [] Ht).
Defined.

(** ** The loop of [main] *)

Lemma write_until_accepted_now hst fuel addr buf len w :
  in_free hst (writes w) = true ->
  len mod 65536 <> 0 ->
  write_until_accepted hst fuel addr buf len w
  = Done tt (offered hst addr buf len w).
Proof.
  intros Hfree Hlen. apply Z.eqb_neq in Hlen.
  destruct fuel; cbn [write_until_accepted]; unfold bind, usbd_ep_write_packet, offered;
    rewrite Hfree, Hlen; reflexivity.
Qed.

Lemma write_until_accepted_again hst fuel addr buf len w :
  in_free hst (writes w) = false ->
  write_until_accepted hst (S fuel) addr buf len w
  = write_until_accepted hst fuel addr buf len (offered hst addr buf len w).
Proof.
  intros Hfree. cbn [write_until_accepted]. unfold bind at 1.
  unfold usbd_ep_write_packet, offered. rewrite Hfree. reflexivity.
Qed.

(** The send loops of [main] retry without polling in between, and return
    at the first attempt the driver accepts. *)
Lemma write_until_accepted_returns_at hst addr buf len k : forall w,
  in_free hst (writes w + k) = true ->
  len mod 65536 <> 0 ->
  exists w' j,
    (forall fuel, (k <= fuel)%nat ->
       write_until_accepted hst fuel addr buf len w = Done tt w') /\
    trace w' = trace w
               ++ repeat (ev_ep_write addr (take (Z.to_nat (len mod 65536)) buf) false) j
               ++ [ev_ep_write addr (take (Z.to_nat (len mod 65536)) buf) true] /\
    is_usb_device_configured w' = is_usb_device_configured w /\
    host_out w' = host_out w /\ polls w' = polls w /\ reads w' = reads w.
Proof.
  induction k as [|k IH]; intros w Hk Hnz.
  - rewrite Nat.add_0_r in Hk. exists (offered hst addr buf len w), O.
    split; [intros; apply write_until_accepted_now; assumption|].
    unfold offered. cbn. rewrite Hk. repeat split.
  - destruct (in_free hst (writes w)) eqn:Hfree.
    + exists (offered hst addr buf len w), O.
      split; [intros; apply write_until_accepted_now; assumption|].
      unfold offered. cbn. rewrite Hfree. repeat split.
    + destruct (IH (offered hst addr buf len w)) as (w' & j & Hw' & Htr & Hrest).
      * cbn. rewrite <- Nat.add_succ_r. exact Hk.
      * exact Hnz.
      * exists w', (S j). split.
        -- intros [|fuel] Hle; [lia|].
           rewrite write_until_accepted_again by exact Hfree. apply Hw'. lia.
        -- split; [|exact Hrest]. rewrite Htr. unfold offered. cbn.
           rewrite Hfree, <- app_assoc. reflexivity.
Qed.

Lemma write_until_accepted_returns hst addr buf len w :
  infinitely_often (in_free hst) ->
  len mod 65536 <> 0 ->
  exists F w' j,
    (forall fuel, (F <= fuel)%nat ->
       write_until_accepted hst fuel addr buf len w = Done tt w') /\
    trace w' = trace w
               ++ repeat (ev_ep_write addr (take (Z.to_nat (len mod 65536)) buf) false) j
               ++ [ev_ep_write addr (take (Z.to_nat (len mod 65536)) buf) true] /\
    is_usb_device_configured w' = is_usb_device_configured w /\
    host_out w' = host_out w /\ polls w' = polls w /\ reads w' = reads w.
Proof.
  intros Hio Hnz. destruct (Hio (writes w)) as (m & Hm & Hfree).
  destruct (write_until_accepted_returns_at hst addr buf len (m - writes w) w)
    as (w' & j & H); auto.
  - replace (writes w + (m - writes w))%nat with m by lia. exact Hfree.
  - eauto.
Qed.

(** X1. While the device is not configured, [main] only polls: as long as no
    poll serves a SET_CONFIGURATION request, [n] turns of its loop make
    [n] polls, touch no endpoint and leave the host's packets queued. *)
Theorem main_loop_waits_for_configuration :
  forall (hst : host) (fuel : nat) (buf0 : list Z) (n : nat) (w : world),
    is_usb_device_configured w = false ->
    (forall k, (polls w <= k < polls w + n)%nat ->
               set_configuration hst k = None) ->
    exists w',
      main_loop hst fuel buf0 n w = Done tt w' /\
      trace w' = trace w ++ repeat ev_poll n /\
      is_usb_device_configured w' = false /\
      host_out w' = host_out w /\
      reads w' = reads w /\ writes w' = writes w.
Proof.
  intros hst fuel buf0 n. induction n as [|n IH]; intros w Hflag Hnone.
  - exists w. cbn. rewrite app_nil_r. repeat split. exact Hflag.
  - assert (Hs : set_configuration hst (polls w) = None) by (apply Hnone; lia).
    assert (Hbody : main_loop_body hst fuel buf0 w = Done tt (polled hst w)).
    { unfold main_loop_body. unfold bind. rewrite Hflag. apply usbd_poll_eq. }
    destruct (IH (polled hst w)) as (w' & Hrun & Htr & Hf & Hq & Hr & Hw).
    + cbn. rewrite Hs. exact Hflag.
    + intros k Hk. apply Hnone. cbn in Hk. lia.
    + exists w'. cbn [main_loop]. unfold bind at 1. rewrite Hbody.
      split; [exact Hrun|]. split; [|auto].
      rewrite Htr. unfold polled, poll_events. cbn [trace]. rewrite Hs.
      rewrite <- app_assoc. reflexivity.
Qed.

Lemma main_loop_waits_for_configuration_witness :
  is_usb_device_configured (initial_world [[1; 2]]) = false /\
  exists w',
    main_loop ready_host 0 [] 3 (initial_world [[1; 2]]) = Done tt w' /\
    trace w' = trace (initial_world [[1; 2]]) ++ repeat ev_poll 3 /\
    is_usb_device_configured w' = false /\
    host_out w' = host_out (initial_world [[1; 2]]) /\
    reads w' = reads (initial_world [[1; 2]]) /\
    writes w' = writes (initial_world [[1; 2]]).
Proof.
  split; [reflexivity|].
  apply (main_loop_waits_for_configuration ready_host 0 [] 3 (initial_world [[1; 2]])).
  - reflexivity.
  - intros k _. reflexivity.
Defined.

(** X2. Once configured, a turn of [main]'s loop that finds a non-empty packet
    echoes it: the packet is taken from the host, sent back as it came
    (retrying without polling until the driver accepts it), followed by the
    three bytes of the prompt, and only then is the device polled. *)
Theorem main_loop_echoes :
  forall (hst : host) (buf0 : list Z) (w : world) (p : list Z)
         (rest : list (list Z)),
    is_usb_device_configured w = true ->
    host_out w = p :: rest ->
    p <> [] ->
    (length p <= 64)%nat ->
    out_arrived hst (reads w) = true ->
    infinitely_often (in_free hst) ->
    exists F w' j1 j2,
      (forall fuel, (F <= fuel)%nat ->
         main_loop_body hst fuel buf0 w = Done tt w') /\
      trace w' = trace w
        ++ ev_ep_read USB_CDCACM_DATA_OUT_ENDPOINT_ADDRESS p
        :: repeat (ev_ep_write USB_CDCACM_DATA_IN_ENDPOINT_ADDRESS p false) j1
        ++ ev_ep_write USB_CDCACM_DATA_IN_ENDPOINT_ADDRESS p true
        :: repeat (ev_ep_write USB_CDCACM_DATA_IN_ENDPOINT_ADDRESS prompt false) j2
        ++ ev_ep_write USB_CDCACM_DATA_IN_ENDPOINT_ADDRESS prompt true
        :: poll_events hst (polls w) /\
      host_out w' = rest.
Proof.
  intros hst buf0 w p rest Hflag Hq Hp Hlen Harr Hio.
  set (w1 := log (ev_ep_read USB_CDCACM_DATA_OUT_ENDPOINT_ADDRESS p)
                 (tick_read (set_host_out rest w))).
  assert (Hread : usbd_ep_read_packet hst USB_CDCACM_DATA_OUT_ENDPOINT_ADDRESS 64 w
                  = Done p w1).
  { unfold usbd_ep_read_packet. rewrite Harr, Hq.
    change (USB_CDCACM_DATA_OUT_ENDPOINT_ADDRESS =? USB_CDCACM_DATA_OUT_ENDPOINT_ADDRESS)
      with true.
    cbn [andb]. change (Z.to_nat (64 mod 65536)) with 64%nat.
    rewrite take_ge by exact Hlen. reflexivity. }
  assert (Hi : Z.of_nat (length p) mod 65536 = Z.of_nat (length p)).
  { apply Z.mod_small. lia. }
  assert (Hi0 : Z.of_nat (length p) <> 0).
  { destruct p; [congruence|cbn [length]; lia]. }
  destruct (write_until_accepted_returns hst USB_CDCACM_DATA_IN_ENDPOINT_ADDRESS
              (p ++ drop (length p) buf0) (Z.of_nat (length p)) w1 Hio)
    as (F1 & w2 & j1 & H1 & Htr1 & Hf1 & Hq1 & Hp1 & _).
  { rewrite Hi. exact Hi0. }
  rewrite Hi, Nat2Z.id, take_app_length in Htr1.
  destruct (write_until_accepted_returns hst USB_CDCACM_DATA_IN_ENDPOINT_ADDRESS
              prompt 3 w2 Hio)
    as (F2 & w3 & j2 & H2 & Htr2 & Hf2 & Hq2 & Hp2 & _).
  { discriminate. }
  change (take (Z.to_nat (3 mod 65536)) prompt) with prompt in Htr2.
  exists (Nat.max F1 F2), (polled hst w3), j1, j2. split; [|split].
  - intros fuel Hle. unfold main_loop_body. unfold bind at 1. rewrite Hflag.
    unfold bind at 1. rewrite Hread. cbn beta zeta.
    apply Z.eqb_neq in Hi0. rewrite Hi0.
    unfold bind at 1. rewrite H1 by lia. rewrite H2 by lia.
    apply usbd_poll_eq.
  - unfold polled. cbn [trace]. rewrite Hp2, Hp1, Htr2, Htr1.
    unfold w1. cbn [trace polls log tick_read set_host_out].
    rewrite <- !app_assoc. reflexivity.
  - unfold polled. cbn [host_out]. rewrite Hq2, Hq1. reflexivity.
Qed.

Lemma main_loop_echoes_witness :
  exists F w' j1 j2,
    (forall fuel, (F <= fuel)%nat ->
       main_loop_body ready_host fuel []
         (set_configured true (initial_world [[104; 105]])) = Done tt w') /\
    trace w' = trace (set_configured true (initial_world [[104; 105]]))
      ++ ev_ep_read USB_CDCACM_DATA_OUT_ENDPOINT_ADDRESS [104; 105]
      :: repeat (ev_ep_write USB_CDCACM_DATA_IN_ENDPOINT_ADDRESS [104; 105] false) j1
      ++ ev_ep_write USB_CDCACM_DATA_IN_ENDPOINT_ADDRESS [104; 105] true
      :: repeat (ev_ep_write USB_CDCACM_DATA_IN_ENDPOINT_ADDRESS prompt false) j2
      ++ ev_ep_write USB_CDCACM_DATA_IN_ENDPOINT_ADDRESS prompt true
      :: poll_events ready_host
           (polls (set_configured true (initial_world [[104; 105]]))) /\
    host_out w' = [].
Proof.
  apply (main_loop_echoes ready_host []
           (set_configured true (initial_world [[104; 105]])) [104; 105] []).
  - reflexivity.
  - reflexivity.
  - discriminate.
  - cbn. lia.
  - reflexivity.
  - intros n. exists n. split; [lia|reflexivity].
Defined.

(** X3. Once configured, a turn of [main]'s loop that receives nothing, or an
    empty packet, sends nothing, not even the prompt: it makes one receive
    attempt and one poll; an empty packet is taken from the queue and
    dropped. *)
Theorem main_loop_idle :
  forall (hst : host) (fuel : nat) (buf0 : list Z) (w : world),
    is_usb_device_configured w = true ->
    rx_next hst w = [] ->
    exists w',
      main_loop_body hst fuel buf0 w = Done tt w' /\
      trace w' = trace w
                 ++ ev_ep_read USB_CDCACM_DATA_OUT_ENDPOINT_ADDRESS []
                 :: poll_events hst (polls w) /\
      host_out w' = rx_rest hst w /\
      writes w' = writes w.
Proof.
  intros hst fuel buf0 w Hflag Hnone.
  assert (Hread : usbd_ep_read_packet hst USB_CDCACM_DATA_OUT_ENDPOINT_ADDRESS 64 w
                  = Done [] (log (ev_ep_read USB_CDCACM_DATA_OUT_ENDPOINT_ADDRESS [])
                                 (tick_read (set_host_out (rx_rest hst w) w)))).
  { unfold usbd_ep_read_packet, rx_next, rx_rest in *.
    change (USB_CDCACM_DATA_OUT_ENDPOINT_ADDRESS =? USB_CDCACM_DATA_OUT_ENDPOINT_ADDRESS)
      with true.
    cbn [andb]. change (Z.to_nat (64 mod 65536)) with (Z.to_nat sizeof_inbuf).
    destruct (out_arrived hst (reads w)).
    - destruct (host_out w) as [|p q] eqn:Hq.
      + cbn. rewrite Hq. reflexivity.
      + rewrite Hnone. reflexivity.
    - destruct w; reflexivity. }
  eexists. split.
  - unfold main_loop_body. unfold bind at 1. rewrite Hflag.
    unfold bind at 1. rewrite Hread. cbn beta zeta.
    cbn [length Z.of_nat Z.eqb ret]. apply usbd_poll_eq.
  - unfold polled. cbn. rewrite <- app_assoc. repeat split.
Qed.

Lemma main_loop_idle_witness :
  is_usb_device_configured (set_configured true (initial_world [[]; [7]])) = true /\
  rx_next ready_host (set_configured true (initial_world [[]; [7]])) = [] /\
  exists w',
    main_loop_body ready_host 0 []
      (set_configured true (initial_world [[]; [7]])) = Done tt w' /\
    trace w' = trace (set_configured true (initial_world [[]; [7]]))
               ++ ev_ep_read USB_CDCACM_DATA_OUT_ENDPOINT_ADDRESS []
               :: poll_events ready_host
                    (polls (set_configured true (initial_world [[]; [7]]))) /\
    host_out w' = rx_rest ready_host (set_configured true (initial_world [[]; [7]])) /\
    writes w' = writes (set_configured true (initial_world [[]; [7]])).
Proof.
  split; [reflexivity|]. split; [reflexivity|].
  apply (main_loop_idle ready_host 0 []
           (set_configured true (initial_world [[]; [7]]))); reflexivity.
Defined.

(** ** The descriptor set as a whole *)

(** X13. The descriptors agree with each other and with the buffers of the
    stream code: the declared counts are the lengths of the arrays they
    count, interface numbers are the positions in [usb_interfaces], the
    three endpoint addresses are distinct and carry the direction bit of
    their role, every endpoint has the packet size of [inbuf], which
    [outbuf] stays below, the class-specific length of the Communications
    interface is the sum of its four functional descriptors' lengths, no
    descriptor names a string (there are none), and the control endpoint
    size is one USB 2.0 allows and fits the control buffer. *)
Theorem descriptors_consistent :
  bNumInterfaces usb_config_descriptor
  = Z.of_nat (length (interface usb_config_descriptor)) /\
  map (fun i => bInterfaceNumber (altsetting i)) (interface usb_config_descriptor)
  = map Z.of_nat (seq 0 (length (interface usb_config_descriptor))) /\
  Forall (fun i => bNumEndpoints (altsetting i)
                   = Z.of_nat (length (endpoint (altsetting i))))
         (interface usb_config_descriptor) /\
  NoDup (map (fun e => fst (fst e)) declared_endpoints) /\
  Forall (fun d => wMaxPacketSize d = sizeof_inbuf /\
                   sizeof_outbuf < wMaxPacketSize d)
         (usb_cdcacm_communication_endpoint ++ usb_cdcacm_data_endpoints) /\
  map (fun d => Z.testbit (bEndpointAddress d) 7)
      (usb_cdcacm_communication_endpoint ++ usb_cdcacm_data_endpoints)
  = [true; true; false] /\
  (exists fd,
     extra cdcacm_communications_interface = Some fd /\
     extralen cdcacm_communications_interface
     = h_bFunctionLength (fd_h fd) + acm_bFunctionLength (fd_acm fd)
       + u_bFunctionLength (fd_u fd) + c_bFunctionLength (fd_c fd)) /\
  (extra cdcacm_data_interface = None /\ extralen cdcacm_data_interface = 0) /\
  Forall (fun i => i <= Z.of_nat (length usb_strings))
         [ iManufacturer usb_device_descriptor; iProduct usb_device_descriptor;
           iSerialNumber usb_device_descriptor;
           iConfiguration usb_config_descriptor;
           iInterface cdcacm_communications_interface;
           iInterface cdcacm_data_interface ] /\
  In (bMaxPacketSize0 usb_device_descriptor) [8; 16; 32; 64] /\
  bMaxPacketSize0 usb_device_descriptor <= sizeof_usb_control_buffer.
Proof.
  split; [reflexivity|]. split; [reflexivity|].
  split; [repeat constructor|].
  split.
  { apply (bool_decide_unpack _). vm_compute. exact I. }
  split; [repeat constructor|].
  split; [reflexivity|].
  split; [exists usb_cdcacm_functional_descriptors; split; reflexivity|].
  split; [split; reflexivity|].
  split; [repeat constructor; cbn; lia|].
  split; [cbn; tauto|].
  cbn. discriminate.
Qed.
